(** * Detroit Employment Solutions Corporation spider: schedule parsing

    A shallow embedding of
    [city_scrapers/spiders/det_employment_solutions_corp.py].

    Python [str] values are lists of characters; the characters are the
    code points 0..255 (type [ascii]).  The regular expressions of the
    spider are values of [regex], interpreted by a backtracking matcher
    that lists every way a pattern can match in the order in which
    Python's [re] module tries them. *)

From Stdlib Require Import ZArith List Ascii String Bool Lia.
From stdpp Require Import base option list gmap.

Import ListNotations.
Local Open Scope char_scope.
Local Open Scope list_scope.

(** ** Python strings *)

Definition pystr : Type := list ascii.

Definition str (s : string) : pystr := list_ascii_of_string s.

Definition code (c : ascii) : nat := nat_of_ascii c.

Definition in_range (lo hi c : ascii) : bool :=
  (code lo <=? code c)%nat && (code c <=? code hi)%nat.

Definition is_upper (c : ascii) : bool := in_range "A" "Z" c.
Definition is_lower (c : ascii) : bool := in_range "a" "z" c.
Definition is_digit (c : ascii) : bool := in_range "0" "9" c.
Definition is_alpha (c : ascii) : bool := is_upper c || is_lower c.

Definition newline : ascii := "010".

(** [\s] on [str] patterns: the characters for which [str.isspace] holds
    (tab..carriage return, the four separators 28..31, space, NEL, NBSP). *)
Definition is_space (c : ascii) : bool :=
  in_range "009" "013" c || in_range "028" " " c
  || Ascii.eqb c "133" || Ascii.eqb c "160".

Definition one_of (s : string) (c : ascii) : bool :=
  existsb (Ascii.eqb c) (str s).

Definition lower (c : ascii) : ascii :=
  if is_upper c then ascii_of_nat (code c + 32) else c.

(** [needle in hay] *)
Fixpoint starts_with (p s : pystr) : bool :=
  match p, s with
  | [], _ => true
  | x :: p', y :: s' => Ascii.eqb x y && starts_with p' s'
  | _ :: _, [] => false
  end.

Fixpoint contains (needle hay : pystr) : bool :=
  starts_with needle hay ||
  match hay with
  | [] => false
  | _ :: hay' => contains needle hay'
  end.

(** [a == b] *)
Fixpoint pystr_eqb (a b : pystr) : bool :=
  match a, b with
  | [], [] => true
  | x :: a', y :: b' => Ascii.eqb x y && pystr_eqb a' b'
  | _, _ => false
  end.

(** [s.replace(old, new, 1)] for a one-character [old]. *)
Fixpoint replace_first (old : ascii) (new : pystr) (s : pystr) : pystr :=
  match s with
  | [] => []
  | x :: s' => if Ascii.eqb x old then new ++ s' else x :: replace_first old new s'
  end.

(** [s.replace(old, new)] for a one-character [old]. *)
Fixpoint replace_all (old : ascii) (new : pystr) (s : pystr) : pystr :=
  match s with
  | [] => []
  | x :: s' => (if Ascii.eqb x old then new else [x]) ++ replace_all old new s'
  end.

(** ** Regular expressions *)

Inductive regex : Type :=
| Eps
| Chr (c : ascii -> bool)
| Rep (greedy : bool) (c : ascii -> bool) (lo : nat) (hi : option nat)
| Seq (r1 r2 : regex)
| Alt (r1 r2 : regex)
| Group (n : nat) (r : regex)
| Backref (n : nat)
| LookBehind (c : ascii -> bool)
| NotAhead (c : ascii -> bool).

(** A position in the subject: the characters already passed (last one
    first), the characters ahead, and the groups captured so far. *)
Record mstate : Type := MState {
  seen : list ascii;
  rest : list ascii;
  grp : list (nat * pystr)
}.

Fixpoint group_lookup (n : nat) (g : list (nat * pystr)) : option pystr :=
  match g with
  | [] => None
  | (k, w) :: g' => if Nat.eqb k n then Some w else group_lookup n g'
  end.

Definition room (hi : option nat) : bool :=
  match hi with Some 0 => false | _ => true end.

(** [c{lo,hi}] (greedy) or [c{lo,hi}?] (lazy) over one character class:
    every stopping point, in the order the matcher tries them. *)
Fixpoint rep (greedy : bool) (c : ascii -> bool) (lo : nat) (hi : option nat)
    (b a : list ascii) : list (list ascii * list ascii) :=
  let stop := match lo with 0 => [(b, a)] | S _ => [] end in
  let more :=
    match a with
    | x :: a' =>
        if c x && room hi
        then rep greedy c (Nat.pred lo) (Nat.pred <$> hi) (x :: b) a'
        else []
    | [] => []
    end in
  if greedy then more ++ stop else stop ++ more.

Fixpoint ends (r : regex) (st : mstate) : list mstate :=
  match r with
  | Eps => [st]
  | Chr c =>
      match rest st with
      | x :: a => if c x then [MState (x :: seen st) a (grp st)] else []
      | [] => []
      end
  | Rep gr c lo hi =>
      map (fun ba => MState (fst ba) (snd ba) (grp st))
          (rep gr c lo hi (seen st) (rest st))
  | Seq r1 r2 => flat_map (ends r2) (ends r1 st)
  | Alt r1 r2 => ends r1 st ++ ends r2 st
  | Group n r =>
      map (fun st' =>
             MState (seen st') (rest st')
               ((n, take (length (rest st) - length (rest st')) (rest st))
                  :: grp st'))
          (ends r st)
  | Backref n =>
      match group_lookup n (grp st) with
      | Some w =>
          if starts_with w (rest st)
          then [MState (rev w ++ seen st) (drop (length w) (rest st)) (grp st)]
          else []
      | None => []
      end
  | LookBehind c =>
      match seen st with
      | x :: _ => if c x then [st] else []
      | [] => []
      end
  | NotAhead c =>
      match rest st with
      | x :: _ => if c x then [] else [st]
      | [] => [st]
      end
  end.

(** The match the backtracking matcher reports at a position: the first
    way to match. *)
Definition match_at (r : regex) (b a : list ascii) : option mstate :=
  head (ends r (MState b a [])).

(** [pattern.match(s)] *)
Definition re_match (r : regex) (s : pystr) : option mstate := match_at r [] s.

(** The left-to-right scan shared by [re.search], [re.findall] and
    [re.sub]: the subject cut into the non-overlapping matches and the
    characters between them.  [skip] counts the characters of the current
    match that are still to be passed.  (No pattern of this spider matches
    the empty string; an empty match is recorded and the scan moves on by
    one character.) *)
Inductive token : Type :=
| TChar (c : ascii)
| TMatch (text : pystr) (g : list (nat * pystr)).

Fixpoint scan (r : regex) (b a : list ascii) (skip : nat) : list token :=
  match skip with
  | S k =>
      match a with
      | x :: a' => scan r (x :: b) a' k
      | [] => []
      end
  | 0 =>
      match match_at r b a with
      | Some st' =>
          let n := length a - length (rest st') in
          TMatch (take n a) (grp st') ::
          match a with
          | x :: a' =>
              match n with
              | 0 => TChar x :: scan r (x :: b) a' 0
              | S k => scan r (x :: b) a' k
              end
          | [] => []
          end
      | None =>
          match a with
          | x :: a' => TChar x :: scan r (x :: b) a' 0
          | [] => []
          end
      end
  end.

Definition tokens (r : regex) (s : pystr) : list token := scan r [] s 0.

Fixpoint matches_of (ts : list token) : list (pystr * list (nat * pystr)) :=
  match ts with
  | [] => []
  | TChar _ :: ts' => matches_of ts'
  | TMatch w g :: ts' => (w, g) :: matches_of ts'
  end.

(** [re.findall(r, s)] for a pattern without groups. *)
Definition re_findall (r : regex) (s : pystr) : list pystr :=
  map fst (matches_of (tokens r s)).

(** [re.search(r, s)]; [.group()] is the text of the result. *)
Definition re_search (r : regex) (s : pystr) : option pystr :=
  head (re_findall r s).

(** [re.sub(r, repl, s)]; [repl] gets the groups and the text of a match. *)
Fixpoint subst_tokens (repl : list (nat * pystr) -> pystr -> pystr)
    (ts : list token) : pystr :=
  match ts with
  | [] => []
  | TChar c :: ts' => c :: subst_tokens repl ts'
  | TMatch w g :: ts' => repl g w ++ subst_tokens repl ts'
  end.

Definition re_sub (r : regex) (repl : list (nat * pystr) -> pystr -> pystr)
    (s : pystr) : pystr :=
  subst_tokens repl (tokens r s).

(** ** Exceptions, results and timestamps *)

Inductive exn : Type :=
| AttributeError
| IndexError
| ValueError (msg : string)
| OverflowError.

Inductive result (A : Type) : Type :=
| Ok (a : A)
| Raise (e : exn).

Arguments Ok {A} a.
Arguments Raise {A} e.

(** A naive [datetime]. *)
Record datetime : Type := Datetime {
  year : Z;
  month : Z;
  day : Z;
  hour : Z;
  minute : Z;
  second : Z
}.

Definition is_leap (y : Z) : bool :=
  ((y mod 4 =? 0) && (negb (y mod 100 =? 0) || (y mod 400 =? 0)))%Z.

Definition days_in_month (y m : Z) : Z :=
  (if m =? 2 then (if is_leap y then 29 else 28)
   else if (m =? 4) || (m =? 6) || (m =? 9) || (m =? 11) then 30
   else 31)%Z.

(** The range checks of the [date] constructor. *)
Definition valid_date (y m d : Z) : bool :=
  ((1 <=? y) && (y <=? 9999) && (1 <=? m) && (m <=? 12)
   && (1 <=? d) && (d <=? days_in_month y m))%Z.

(** ** [str.strip], [str.split] and [int] *)

Fixpoint lstrip (s : pystr) : pystr :=
  match s with
  | x :: s' => if is_space x then lstrip s' else s
  | [] => []
  end.

Definition strip (s : pystr) : pystr := rev (lstrip (rev (lstrip s))).

(** [s.split(sep)] for a one-character separator. *)
Fixpoint split (sep : ascii) (s : pystr) : list pystr :=
  match s with
  | [] => [[]]
  | x :: s' =>
      if Ascii.eqb x sep then [] :: split sep s'
      else match split sep s' with
           | w :: ws => (x :: w) :: ws
           | [] => [[x]]
           end
  end.

Definition digit_val (c : ascii) : Z := Z.of_nat (code c - 48).

(** Decimal digits, single underscores allowed between digits. *)
Fixpoint int_body (s : pystr) (acc : Z) (after_digit : bool) : option Z :=
  match s with
  | [] => if after_digit then Some acc else None
  | x :: s' =>
      if is_digit x then int_body s' (10 * acc + digit_val x)%Z true
      else if Ascii.eqb x "_" && after_digit then int_body s' acc false
      else None
  end.

(** [int(s)] *)
Definition py_int (s : pystr) : result Z :=
  let t := strip s in
  let v :=
    match t with
    | "+" :: t' => int_body t' 0%Z false
    | "-" :: t' => Z.opp <$> int_body t' 0%Z false
    | _ => int_body t 0%Z false
    end in
  match v with
  | Some n => Ok n
  | None => Raise (ValueError "invalid literal for int() with base 10")
  end.

(** ** The patterns of the spider *)

(** [[A-Z0-9:\n ]] *)
Definition dup_class (c : ascii) : bool :=
  is_upper c || is_digit c || one_of ":" c || Ascii.eqb c newline
  || one_of " " c.

(** [([A-Z0-9:\n ]{2})\1] *)
Definition dup_re : regex :=
  Seq (Group 1 (Rep true dup_class 2 (Some 2))) (Backref 1).

(** [[A-Z0-9:]] *)
Definition join_class (c : ascii) : bool :=
  is_upper c || is_digit c || one_of ":" c.

(** [(?<=[A-Z0-9:])\n] *)
Definition join_re : regex :=
  Seq (LookBehind join_class) (Chr (Ascii.eqb newline)).

(** [\s+] *)
Definition ws_re : regex := Rep true is_space 1 None.

(** [\d{4}] *)
Definition year_re : regex := Rep true is_digit 4 (Some 4).

(** [\d{1,2}[:]\d{2}\s*[a|p|A|P][m|M]] *)
Definition time_re : regex :=
  Seq (Rep true is_digit 1 (Some 2))
  (Seq (Chr (one_of ":"))
  (Seq (Rep true is_digit 2 (Some 2))
  (Seq (Rep true is_space 0 None)
  (Seq (Chr (one_of "a|pAP"))
       (Chr (one_of "m|M")))))).

(** [.] without DOTALL *)
Definition dot (c : ascii) : bool := negb (Ascii.eqb c newline).

(** [\d{1,2}[:]\d{2}\s*[a|p|A|P][m|M].*?\d{1,2}[:]\d{2}\s*[a|p|A|P][m|M]] *)
Definition time_pair_re : regex :=
  Seq time_re (Seq (Rep false dot 0 None) time_re).

(** [[a-z|]] *)
Definition lower_or_pipe (c : ascii) : bool := is_lower c || one_of "|" c.

(** [[J|F|M|A|S|O|N|D][a-z|]{0,8}\s?[a-z]{1,8}\s+\d{1,2}(?!\d)] *)
Definition date_re : regex :=
  Seq (Chr (one_of "J|FMASOND"))
  (Seq (Rep true lower_or_pipe 0 (Some 8))
  (Seq (Rep true is_space 0 (Some 1))
  (Seq (Rep true is_lower 1 (Some 8))
  (Seq (Rep true is_space 1 None)
  (Seq (Rep true is_digit 1 (Some 2))
       (NotAhead is_digit)))))).

(** ** Text Normalizer (lines 65-70 of the source) *)

Definition group1 (g : list (nat * pystr)) (_ : pystr) : pystr :=
  default [] (group_lookup 1 g).

Definition nothing (_ : list (nat * pystr)) (_ : pystr) : pystr := [].

Definition one_space (_ : list (nat * pystr)) (_ : pystr) : pystr := str " ".

Definition dedup (s : pystr) : pystr := re_sub dup_re group1 s.

Definition join_lines (s : pystr) : pystr :=
  replace_all newline (str " ") (re_sub join_re nothing s).

Definition collapse_spaces (s : pystr) : pystr := re_sub ws_re one_space s.

Definition clean_text (pdf_text : pystr) : pystr :=
  collapse_spaces (join_lines (dedup pdf_text)).

(** ** [datetime.strptime(s, "%B %d %Y %I:%M %p")]

    [_strptime] compiles the format into a case-insensitive regular
    expression with one named group per directive, each run of white
    space of the format becoming [\s+]; the month names are tried longest
    first.  The groups are numbered here in the order of the format. *)

(** A literal, matched without regard to case. *)
Fixpoint lit_ci (s : pystr) : regex :=
  match s with
  | [] => Eps
  | c :: s' => Seq (Chr (fun x => Ascii.eqb (lower x) c)) (lit_ci s')
  end.

Fixpoint alts (r : regex) (rs : list regex) : regex :=
  match rs with
  | [] => r
  | r' :: rs' => Alt r (alts r' rs')
  end.

(** [locale_time.f_month[1:]] *)
Definition f_month : list pystr :=
  map str ["january"; "february"; "march"; "april"; "may"; "june"; "july";
           "august"; "september"; "october"; "november"; "december"]%string.

(** [(?P<B>september|february|november|december|january|october|august|march|april|june|july|may)] *)
Definition dir_B : regex :=
  alts (lit_ci (str "september"))
    (map (fun s => lit_ci (str s))
       ["february"; "november"; "december"; "january"; "october"; "august";
        "march"; "april"; "june"; "july"; "may"]%string).

(** [(?P<d>3[0-1]|[1-2]\d|0[1-9]|[1-9]| [1-9])] *)
Definition dir_d : regex :=
  alts (Seq (Chr (one_of "3")) (Chr (in_range "0" "1")))
    [Seq (Chr (in_range "1" "2")) (Chr is_digit);
     Seq (Chr (one_of "0")) (Chr (in_range "1" "9"));
     Chr (in_range "1" "9");
     Seq (Chr (one_of " ")) (Chr (in_range "1" "9"))].

(** [(?P<Y>\d\d\d\d)] *)
Definition dir_Y : regex :=
  Seq (Chr is_digit) (Seq (Chr is_digit) (Seq (Chr is_digit) (Chr is_digit))).

(** [(?P<I>1[0-2]|0[1-9]|[1-9])] *)
Definition dir_I : regex :=
  alts (Seq (Chr (one_of "1")) (Chr (in_range "0" "2")))
    [Seq (Chr (one_of "0")) (Chr (in_range "1" "9"));
     Chr (in_range "1" "9")].

(** [(?P<M>[0-5]\d|\d)] *)
Definition dir_M : regex :=
  Alt (Seq (Chr (in_range "0" "5")) (Chr is_digit)) (Chr is_digit).

(** [(?P<p>am|pm)] *)
Definition dir_p : regex := Alt (lit_ci (str "am")) (lit_ci (str "pm")).

(** [%B\s+%d\s+%Y] *)
Definition date_part_re : regex :=
  Seq (Group 1 dir_B)
  (Seq ws_re
  (Seq (Group 2 dir_d)
  (Seq ws_re
       (Group 3 dir_Y)))).

(** [\s+%I:%M\s+%p] *)
Definition time_part_re : regex :=
  Seq ws_re
  (Seq (Group 4 dir_I)
  (Seq (Chr (one_of ":"))
  (Seq (Group 5 dir_M)
  (Seq ws_re
       (Group 6 dir_p))))).

Definition strptime_re : regex := Seq date_part_re time_part_re.

(** [list.index], counted from 1 as in [f_month] with its empty head. *)
Fixpoint index_from (n : Z) (x : pystr) (l : list pystr) : option Z :=
  match l with
  | [] => None
  | y :: l' =>
      if pystr_eqb x y then Some n
      else index_from (n + 1)%Z x l'
  end.

Definition group_text (n : nat) (g : list (nat * pystr)) : pystr :=
  default [] (group_lookup n g).

(** [int(found_dict[...])]: the groups of the format hold digits (and
    for the day possibly a space before them), on which [int] does not
    fail. *)
Definition int_of (w : pystr) : Z :=
  match py_int w with
  | Ok v => v
  | Raise _ => 0%Z
  end.

Definition group_int (n : nat) (g : list (nat * pystr)) : Z :=
  int_of (group_text n g).

(** The 12-hour clock: 12 am is hour 0, 12 pm stays 12. *)
Definition hour24 (h : Z) (ampm : pystr) : Z :=
  if pystr_eqb ampm [] || pystr_eqb ampm (str "am")
  then (if (h =? 12)%Z then 0%Z else h)
  else if pystr_eqb ampm (str "pm")
  then (if (h =? 12)%Z then h else (h + 12)%Z)
  else h.

Definition no_match : exn := ValueError "time data does not match format".

Definition strptime (data_string : pystr) : result datetime :=
  match re_match strptime_re data_string with
  | None => Raise no_match
  | Some found =>
      match rest found with
      | _ :: _ => Raise (ValueError "unconverted data remains")
      | [] =>
          let g := grp found in
          let y := group_int 3 g in
          let d := group_int 2 g in
          match index_from 1 (map lower (group_text 1 g)) f_month with
          | None => Raise no_match
          | Some m =>
              if valid_date y m d
              then Ok (Datetime y m d
                         (hour24 (group_int 4 g) (map lower (group_text 6 g)))
                         (group_int 5 g) 0)
              else Raise (ValueError "year or day is out of range")
          end
      end
  end.

(** ["{} {} {}".format(a, b, c)] *)
Definition format3 (a b c : pystr) : pystr :=
  a ++ str " " ++ b ++ str " " ++ c.

(** ** The spider *)

Definition agency : pystr := str "Detroit Employment Solutions Corporation".

(** One element of [self.meeting_dates]: the dict with keys ['start'] and
    ['end']. *)
Record entry : Type := Entry {
  start : datetime;
  end_ : datetime
}.

Definition _parse_datetime (time_str date_str year_str : pystr)
    : result datetime :=
  strptime (format3 date_str year_str time_str).

Definition _validate_location (text : pystr) : result unit :=
  if negb (contains (str "440") text)
  then Raise (ValueError "Meeting location has changed")
  else Ok tt.

Definition time_strs_of (clean : pystr) : list pystr :=
  re_findall time_pair_re clean.

Definition time_tuples_of (clean : pystr) : list (list pystr) :=
  map (re_findall time_re) (time_strs_of clean).

Definition date_strs_of (clean : pystr) : list pystr :=
  re_findall date_re clean.

(** The [try]/[except ValueError] of the loop body: the date string that
    is used for the entry. *)
Definition probe_date (date_str year_str : pystr) : result pystr :=
  match strptime (format3 date_str year_str (str "10:30 am")) with
  | Ok _ => Ok date_str
  | Raise (ValueError _) => Ok (replace_first " " [] date_str)
  | Raise e => Raise e
  end.

(** One turn of the loop of lines 90-104, up to the [append]. *)
Definition resolve_entry (date_strs : list pystr)
    (time_tuples : list (list pystr)) (year_str : pystr) (i : nat)
    : result entry :=
  match date_strs !! i with
  | None => Raise IndexError
  | Some date_str0 =>
      match probe_date date_str0 year_str with
      | Raise e => Raise e
      | Ok date_str =>
          match time_tuples !! i with
          | None => Raise IndexError
          | Some time_str =>
              match time_str !! 0%nat with
              | None => Raise IndexError
              | Some start_time =>
                  match time_str !! 1%nat with
                  | None => Raise IndexError
                  | Some end_time =>
                      match _parse_datetime start_time date_str year_str with
                      | Raise e => Raise e
                      | Ok s =>
                          match _parse_datetime end_time date_str year_str with
                          | Raise e => Raise e
                          | Ok e => Ok (Entry s e)
                          end
                      end
                  end
              end
          end
      end
  end.

(** The loop over [range(len(time_strs))]; [meeting_dates] is the list
    held by the spider, returned as it stands when the loop ends or an
    exception leaves it. *)
Fixpoint schedule_loop (date_strs : list pystr)
    (time_tuples : list (list pystr)) (year_str : pystr) (idx : list nat)
    (meeting_dates : list entry) : list entry * result unit :=
  match idx with
  | [] => (meeting_dates, Ok tt)
  | i :: idx' =>
      match resolve_entry date_strs time_tuples year_str i with
      | Raise e => (meeting_dates, Raise e)
      | Ok en =>
          schedule_loop date_strs time_tuples year_str idx'
            (meeting_dates ++ [en])
      end
  end.

Definition mismatch : exn :=
  ValueError "Not all dates can be matched with start and end time".

(** [_parse_schedule_pdf], from the text of the pages on. *)
Definition parse_schedule_text (pdf_text : pystr)
    (meeting_dates : list entry) : list entry * result unit :=
  let clean := clean_text pdf_text in
  match re_search year_re clean with
  | None => (meeting_dates, Raise AttributeError)
  | Some year_str =>
      match _validate_location clean with
      | Raise e => (meeting_dates, Raise e)
      | Ok _ =>
          let time_strs := time_strs_of clean in
          let time_tuples := time_tuples_of clean in
          let date_strs := date_strs_of clean in
          if negb (Nat.eqb (length time_tuples) (length date_strs))
          then (meeting_dates, Raise mismatch)
          else schedule_loop date_strs time_tuples year_str
                 (seq 0 (length time_strs)) meeting_dates
      end
  end.

(** [extractText()] of each page of the PDF, in page order. *)
Definition _parse_schedule_pdf (pages : list pystr)
    (meeting_dates : list entry) : list entry * result unit :=
  parse_schedule_text (concat pages) meeting_dates.

(** ** Documents page and meeting records *)

Inductive classification : Type := BOARD | COMMITTEE | NOT_CLASSIFIED.

(** [{"title": ..., "href": ...}]; [href] is [None] when the row has no
    link. *)
Record link : Type := Link {
  link_title : pystr;
  href : option pystr
}.

Record place : Type := Place {
  name : pystr;
  address : pystr
}.

Definition location : place :=
  Place (str "DESC") (str "440 E. Congress, Detroit, MI 48226").

Definition start_urls : list pystr :=
  [str "https://www.descmiworks.com/about-us/public-meetings/"].

(** One [div.meeting-min_inner-wrapper] of the documents page, as the
    selectors of the spider see it: the first text of its [p], the [href]
    of its first [a], the first text of its [h3]. *)
Record div : Type := Div {
  p_text : option pystr;
  a_href : option pystr;
  h3_text : option pystr
}.

(** A value of the title map: a heading, or the empty list that
    [defaultdict(list)] inserts on a miss. *)
Inductive title_val : Type :=
| TitleStr (s : pystr)
| TitleDefault.

Definition truthy (v : title_val) : bool :=
  match v with
  | TitleStr [] => false
  | TitleStr (_ :: _) => true
  | TitleDefault => false
  end.

Definition title_text (v : title_val) : pystr :=
  match v with
  | TitleStr s => s
  | TitleDefault => []
  end.

(** [d[k]] on a [defaultdict]: a miss inserts the default and returns it. *)
Definition dd_get {V : Type} (dflt : V) (k : Z * Z) (d : gmap (Z * Z) V)
    : V * gmap (Z * Z) V :=
  match d !! k with
  | Some v => (v, d)
  | None => (dflt, <[k := dflt]> d)
  end.

(** The constructor of [datetime] reads its arguments as C ints; a
    Python int outside that range raises [OverflowError] before any range
    check of the date. *)
Definition c_int (n : Z) : bool :=
  ((-2147483648 <=? n) && (n <=? 2147483647))%Z.

(** [date.strip().split('/')] and [datetime(int(date[2]), int(date[0]),
    int(date[1]))]; the result is the key [(month, year)]. *)
Definition row_key (d : div) : result (Z * Z) :=
  match p_text d with
  | None => Raise AttributeError
  | Some t =>
      let date := split "/" (strip t) in
      match date !! 2%nat with
      | None => Raise IndexError
      | Some s2 =>
          match py_int s2 with
          | Raise e => Raise e
          | Ok y =>
              match date !! 0%nat with
              | None => Raise IndexError
              | Some s0 =>
                  match py_int s0 with
                  | Raise e => Raise e
                  | Ok m =>
                      match date !! 1%nat with
                      | None => Raise IndexError
                      | Some s1 =>
                          match py_int s1 with
                          | Raise e => Raise e
                          | Ok dd =>
                              if c_int y && c_int m && c_int dd
                              then
                                if valid_date y m dd then Ok (m, y)
                                else Raise (ValueError "year or day is out of range")
                              else Raise OverflowError
                          end
                      end
                  end
              end
          end
      end
  end.

Fixpoint link_map_loop (divs : list div) (link_map : gmap (Z * Z) (list link))
    : result (gmap (Z * Z) (list link)) :=
  match divs with
  | [] => Ok link_map
  | d :: divs' =>
      match row_key d with
      | Raise e => Raise e
      | Ok k =>
          let '(l, link_map1) := dd_get [] k link_map in
          link_map_loop divs'
            (<[k := l ++ [Link (str "Minutes") (a_href d)]]> link_map1)
      end
  end.

Definition _parse_link_map (response : list div)
    : result (gmap (Z * Z) (list link)) :=
  link_map_loop response ∅.

Fixpoint title_map_loop (divs : list div) (title_map : gmap (Z * Z) title_val)
    : result (gmap (Z * Z) title_val) :=
  match divs with
  | [] => Ok title_map
  | d :: divs' =>
      match row_key d with
      | Raise e => Raise e
      | Ok k =>
          match h3_text d with
          | None => Raise AttributeError
          | Some h => title_map_loop divs' (<[k := TitleStr (strip h)]> title_map)
          end
      end
  end.

Definition _parse_title_map (response : list div)
    : result (gmap (Z * Z) title_val) :=
  title_map_loop response ∅.

Definition key_of (date : entry) : Z * Z :=
  (month (start date), year (start date)).

Definition _parse_title (date : entry) (title_map : gmap (Z * Z) title_val)
    : pystr * gmap (Z * Z) title_val :=
  let '(v, title_map1) := dd_get TitleDefault (key_of date) title_map in
  if truthy v
  then let '(v', title_map2) := dd_get TitleDefault (key_of date) title_map1 in
       (title_text v', title_map2)
  else (agency, title_map1).

Definition _parse_classification (title : pystr) : classification :=
  if contains (str "Board") title then BOARD
  else if contains (str "Committee") title then COMMITTEE
  else NOT_CLASSIFIED.

(** The fields of a [Meeting] item set by its constructor call. *)
Record meeting_fields : Type := MeetingFields {
  title : pystr;
  description : pystr;
  classification_ : classification;
  m_start : datetime;
  m_end : datetime;
  all_day : bool;
  time_notes : pystr;
  m_location : place;
  links : list link;
  source : pystr
}.

(** The item once [status] and [id] are stored in it. *)
Record Meeting : Type := MkMeeting {
  fields : meeting_fields;
  status : pystr;
  id : pystr
}.

Section Documents.

(** [CityScrapersSpider._get_status] and [._get_id]; the second sees
    the status already stored in the item. *)
Variable _get_status : meeting_fields -> pystr.
Variable _get_id : meeting_fields -> pystr -> pystr.

(** The body of the loop of [_parse_documents] for one entry. *)
Definition assemble (date : entry) (link_map : gmap (Z * Z) (list link))
    (title_map : gmap (Z * Z) title_val)
    : Meeting * gmap (Z * Z) (list link) * gmap (Z * Z) title_val :=
  let '(title_in, title_map1) := _parse_title date title_map in
  let '(ls, link_map1) := dd_get [] (key_of date) link_map in
  let f := MeetingFields title_in [] (_parse_classification title_in)
             (start date) (end_ date) false [] location ls
             (hd [] start_urls) in
  let st := _get_status f in
  (MkMeeting f st (_get_id f st), link_map1, title_map1).

Fixpoint documents_loop (meeting_dates : list entry)
    (link_map : gmap (Z * Z) (list link))
    (title_map : gmap (Z * Z) title_val) : list Meeting :=
  match meeting_dates with
  | [] => []
  | date :: rest' =>
      let '(m, link_map1, title_map1) := assemble date link_map title_map in
      m :: documents_loop rest' link_map1 title_map1
  end.

(** The meetings [_parse_documents] yields. *)
Definition _parse_documents (response : list div)
    (meeting_dates : list entry) : result (list Meeting) :=
  match _parse_link_map response with
  | Raise e => Raise e
  | Ok link_map =>
      match _parse_title_map response with
      | Raise e => Raise e
      | Ok title_map => Ok (documents_loop meeting_dates link_map title_map)
      end
  end.

End Documents.

(** ** What a pattern matches

    [sem r st st'] holds when [r] can match from the position [st] to the
    position [st']; [ends] lists exactly these positions. *)

Definition within (hi : option nat) (n : nat) : Prop :=
  match hi with
  | Some h => n <= h
  | None => True
  end.

Inductive sem : regex -> mstate -> mstate -> Prop :=
| sem_eps st : sem Eps st st
| sem_chr c x b a g :
    c x = true -> sem (Chr c) (MState b (x :: a) g) (MState (x :: b) a g)
| sem_rep gr c lo hi w b a g :
    forallb c w = true -> lo <= length w -> within hi (length w) ->
    sem (Rep gr c lo hi) (MState b (w ++ a) g) (MState (rev w ++ b) a g)
| sem_seq r1 r2 st st1 st2 :
    sem r1 st st1 -> sem r2 st1 st2 -> sem (Seq r1 r2) st st2
| sem_alt_l r1 r2 st st' : sem r1 st st' -> sem (Alt r1 r2) st st'
| sem_alt_r r1 r2 st st' : sem r2 st st' -> sem (Alt r1 r2) st st'
| sem_group n r st st' :
    sem r st st' ->
    sem (Group n r) st
      (MState (seen st') (rest st')
         ((n, take (length (rest st) - length (rest st')) (rest st))
            :: grp st'))
| sem_backref n w b a g :
    group_lookup n g = Some w ->
    sem (Backref n) (MState b (w ++ a) g) (MState (rev w ++ b) a g)
| sem_lookbehind c x b a g :
    c x = true ->
    sem (LookBehind c) (MState (x :: b) a g) (MState (x :: b) a g)
| sem_notahead_end c b g :
    sem (NotAhead c) (MState b [] g) (MState b [] g)
| sem_notahead c x b a g :
    c x = false ->
    sem (NotAhead c) (MState b (x :: a) g) (MState b (x :: a) g).

(** ** Notions used in the statements *)

(** [needle] occurs in [hay]. *)
Definition occurs (needle hay : pystr) : Prop :=
  exists pre post, hay = pre ++ needle ++ post.

Definition location_changed : exn := ValueError "Meeting location has changed".

(** The heading, stripped, of the last row of [divs] whose date gives the
    key [k]. *)
Fixpoint last_heading (k : Z * Z) (divs : list div) : option pystr :=
  match divs with
  | [] => None
  | d :: divs' =>
      match last_heading k divs' with
      | Some t => Some t
      | None =>
          match row_key d, h3_text d with
          | Ok k', Some h => if decide (k' = k) then Some (strip h) else None
          | _, _ => None
          end
      end
  end.

(** The Datetime Resolver: the probe of lines 92-97, then
    [_parse_datetime] with the date string the probe leaves. *)
Definition resolve (date_str year_str time_str : pystr) : result datetime :=
  match probe_date date_str year_str with
  | Raise e => Raise e
  | Ok date_str' => _parse_datetime time_str date_str' year_str
  end.

(** A clock time written [H:MM am] or [H:MM pm]. *)
Definition digit_char (n : nat) : ascii := ascii_of_nat (48 + n).

Definition two_digits (n : nat) : pystr :=
  [digit_char (n / 10); digit_char (n mod 10)].

Definition clock (h m : nat) (pm : bool) : pystr :=
  (if (h <? 10)%nat then [digit_char h] else two_digits h)
  ++ str ":" ++ two_digits m ++ str " " ++ str (if pm then "pm" else "am").

(** The hour of the day such a clock time denotes. *)
Definition clock_hour (h : nat) (pm : bool) : Z :=
  if pm then (if (h =? 12)%nat then 12 else Z.of_nat h + 12)%Z
  else (if (h =? 12)%nat then 0 else Z.of_nat h)%Z.

Definition datetime_eqb (a b : datetime) : bool :=
  ((year a =? year b) && (month a =? month b) && (day a =? day b)
   && (hour a =? hour b) && (minute a =? minute b) && (second a =? second b))%Z.

(** Every clock time [h:mm am/pm] with [1 <= h <= 12] and [mm < 60]
    resolves, with the date string ["J uly 9"] and the year ["2022"], to
    9 July 2022 at that time. *)
Definition clock_table_ok : bool :=
  forallb (fun h =>
    forallb (fun m =>
      forallb (fun pm =>
        match resolve (str "J uly 9") (str "2022") (clock h m pm) with
        | Ok dt =>
            datetime_eqb dt
              (Datetime 2022 7 9 (clock_hour h pm) (Z.of_nat m) 0)
        | Raise _ => false
        end) [false; true]) (seq 0 60)) (seq 1 12).

(** The longest prefix of [s] in the class [c], and what follows it. *)
Fixpoint span (c : ascii -> bool) (s : pystr) : pystr * pystr :=
  match s with
  | x :: s' =>
      if c x then (x :: fst (span c s'), snd (span c s')) else ([], s)
  | [] => ([], [])
  end.

(** What [date_re] matches: one of J F M A S O N D or a pipe; up to eight
    lowercase letters or pipes; at most one white-space character; one to
    eight lowercase letters; white space; one or two digits. *)
Definition date_shape (m : pystr) : Prop :=
  exists c0 w1 s1 w2 s2 d,
    m = [c0] ++ w1 ++ s1 ++ w2 ++ s2 ++ d /\
    one_of "J|FMASOND" c0 = true /\
    (forallb lower_or_pipe w1 = true /\ length w1 <= 8) /\
    (forallb is_space s1 = true /\ length s1 <= 1) /\
    (forallb is_lower w2 = true /\ 1 <= length w2 <= 8) /\
    (forallb is_space s2 = true /\ 1 <= length s2) /\
    (forallb is_digit d = true /\ 1 <= length d <= 2).

(** The text that follows does not start with a digit. *)
Definition no_digit_next (post : pystr) : Prop :=
  match post with
  | [] => True
  | x :: _ => is_digit x = false
  end.

(** No piece of the form of a date string that is not followed by a digit
    starts at the head of [s]. *)
Definition no_date_at (s : pystr) : Prop :=
  forall m post, s = m ++ post -> date_shape m -> ~ no_digit_next post.

(** [date_scan text ms]: the pieces [ms] are what one pass over [text]
    from left to right finds.  Either no piece of the form of a date
    string (not followed by a digit) starts anywhere in the text, and
    nothing is found; or the text is a gap in which no such piece starts,
    then such a piece, and the pass goes on behind that piece. *)
Inductive date_scan : pystr -> list pystr -> Prop :=
| date_scan_end (s : pystr) :
    (forall pre post, s = pre ++ post -> no_date_at post) ->
    date_scan s []
| date_scan_next (gap m post : pystr) (ms : list pystr) :
    (forall g1 g2, gap = g1 ++ g2 -> g2 <> [] ->
                   no_date_at (g2 ++ m ++ post)) ->
    date_shape m -> no_digit_next post ->
    date_scan post ms ->
    date_scan (gap ++ m ++ post) (m :: ms).

(** The text of a token of the scan. *)
Definition token_text (t : token) : pystr :=
  match t with
  | TChar c => [c]
  | TMatch w _ => w
  end.

(** The shape the specification gives to a date string: a capital letter
    and up to eight lowercase letters or pipes, white space, one or two
    digits. *)
Definition spec_date_shape (m : pystr) : bool :=
  match m with
  | [] => false
  | c0 :: m' =>
      let w := fst (span lower_or_pipe m') in
      let s := fst (span is_space (snd (span lower_or_pipe m'))) in
      let d := snd (span is_space (snd (span lower_or_pipe m'))) in
      is_upper c0 && (length w <=? 8)%nat && (1 <=? length s)%nat
      && forallb is_digit d && (1 <=? length d)%nat && (length d <=? 2)%nat
  end.

(** A text without white space other than single spaces between other
    characters (or at its ends). *)
Definition starts_nonspace (t : pystr) : bool :=
  match t with
  | [] => true
  | y :: _ => negb (is_space y)
  end.

Fixpoint collapsed (t : pystr) : bool :=
  match t with
  | [] => true
  | x :: t' =>
      (if is_space x then Ascii.eqb x " " && starts_nonspace t' else true)
      && collapsed t'
  end.

(** What [time_re] matches: one or two digits, a colon, two digits, any
    white space, one of a p A P or a pipe, one of m M or a pipe. *)
Definition time_shape (w : pystr) : Prop :=
  exists h mm s x y,
    w = h ++ [":"] ++ mm ++ s ++ [x; y] /\
    (forallb is_digit h = true /\ 1 <= length h <= 2) /\
    (forallb is_digit mm = true /\ length mm = 2) /\
    forallb is_space s = true /\
    one_of "a|pAP" x = true /\ one_of "m|M" y = true.

(** No piece of the form of a clock time starts at the head of [s]. *)
Definition no_time_at (s : pystr) : Prop :=
  forall w r, s = w ++ r -> ~ time_shape w.

(** All characters. *)
Definition all_chars : list ascii := map ascii_of_nat (seq 0 256).

(** The pattern has no group. *)
Fixpoint nogroup (r : regex) : bool :=
  match r with
  | Seq r1 r2 | Alt r1 r2 => nogroup r1 && nogroup r2
  | Group _ _ => false
  | _ => true
  end.

Definition nonspace (c : ascii) : bool := negb (is_space c).
Definition nondigit (c : ascii) : bool := negb (is_digit c).

(** A date string as the loop passes it on: text without digits, then
    the digits of the day. *)
Definition dated (d : pystr) : Prop :=
  exists u dd,
    d = u ++ dd /\ forallb nondigit u = true /\
    forallb is_digit dd = true /\ dd <> [].

(** Same calendar day. *)
Definition same_day (a b : datetime) : Prop :=
  year a = year b /\ month a = month b /\ day a = day b.

(** A letter a to z, in either case. *)
Definition letter (x : ascii) : bool := is_lower (lower x).

(** ** Entry page and the chain of requests (lines 24-54) *)

(** [KeyError] is raised by [link.attrib["href"]] only; the other
    exceptions of the crawl are those of [exn]. *)
Inductive crawl_exn : Type :=
| Exn (e : exn)
| KeyError (key : pystr).

Inductive attempt (A : Type) : Type :=
| Done (a : A)
| Failed (e : crawl_exn).

Arguments Done {A} a.
Arguments Failed {A} e.

(** An [a] element of the entry page: the texts [css("*::text")] extracts
    from it, and its [href] attribute if it has one. *)
Record anchor : Type := Anchor {
  texts : list pystr;
  attrib_href : option pystr
}.

(** [sep.join(parts)] *)
Fixpoint join (sep : pystr) (parts : list pystr) : pystr :=
  match parts with
  | [] => []
  | [p] => p
  | p :: ps => p ++ sep ++ join sep ps
  end.

Definition link_text (a : anchor) : pystr := join (str " ") (texts a).

Inductive callback : Type := to_parse_schedule | to_parse_documents.

(** [scrapy.Request(url, callback=..., dont_filter=True)] *)
Record Request : Type := MkRequest {
  url : pystr;
  request_callback : callback;
  dont_filter : bool
}.

(** The loop of [parse] over the links: the local [schedule_link], and
    [self.docs_link], which keeps what was stored in it when
    [link.attrib["href"]] raises. *)
Fixpoint parse_links (links : list anchor) (schedule_link docs_link : pystr)
    : pystr * attempt pystr :=
  match links with
  | [] => (docs_link, Done schedule_link)
  | link :: links' =>
      if contains (str "Schedule") (link_text link) then
        match attrib_href link with
        | None => (docs_link, Failed (KeyError (str "href")))
        | Some h => parse_links links' h docs_link
        end
      else if contains (str "Minutes") (link_text link) then
        match attrib_href link with
        | None => (docs_link, Failed (KeyError (str "href")))
        | Some h => parse_links links' schedule_link h
        end
      else parse_links links' schedule_link docs_link
  end.

Definition links_not_found : exn := ValueError "Required links not found".

Definition nonempty (s : pystr) : bool :=
  match s with
  | [] => false
  | _ :: _ => true
  end.

Section Crawl.

(** [response.urljoin] of the page at hand. *)
Variable urljoin : pystr -> pystr.

(** [parse]: the new [self.docs_link] and the request it yields. *)
Definition parse (response : list anchor) (docs_link : pystr)
    : pystr * attempt Request :=
  match parse_links response [] docs_link with
  | (docs_link', Failed e) => (docs_link', Failed e)
  | (docs_link', Done schedule_link) =>
      if nonempty schedule_link && nonempty docs_link'
      then (docs_link',
            Done (MkRequest (urljoin schedule_link) to_parse_schedule true))
      else (docs_link', Failed (Exn links_not_found))
  end.

(** [_parse_schedule]: the new [self.meeting_dates] and the request for
    the documents page. *)
Definition _parse_schedule (pages : list pystr) (docs_link : pystr)
    (meeting_dates : list entry) : list entry * result Request :=
  match _parse_schedule_pdf pages meeting_dates with
  | (meeting_dates', Raise e) => (meeting_dates', Raise e)
  | (meeting_dates', Ok _) =>
      (meeting_dates',
       Ok (MkRequest (urljoin docs_link) to_parse_documents true))
  end.

Variable _get_status : meeting_fields -> pystr.
Variable _get_id : meeting_fields -> pystr -> pystr.

(** A crawl with a new spider ([__init__]: no meeting dates, no documents
    link): the entry page, then the pages of the schedule its request
    fetches, then the rows of the documents page the next request
    fetches; the result is what the last callback yields. *)
Definition crawl (entry_page : list anchor) (pages : list pystr)
    (documents : list div) : attempt (list Meeting) :=
  match parse entry_page [] with
  | (_, Failed e) => Failed e
  | (docs_link, Done _) =>
      match _parse_schedule pages docs_link [] with
      | (_, Raise e) => Failed (Exn e)
      | (meeting_dates, Ok _) =>
          match _parse_documents _get_status _get_id documents meeting_dates with
          | Raise e => Failed (Exn e)
          | Ok ms => Done ms
          end
      end
  end.

End Crawl.

(** The [href] of the last link of the page that [p] picks. *)
Fixpoint last_href (p : anchor -> bool) (links : list anchor)
    : option pystr :=
  match links with
  | [] => None
  | a :: links' =>
      match last_href p links' with
      | Some h => Some h
      | None => if p a then attrib_href a else None
      end
  end.

Definition is_schedule (a : anchor) : bool :=
  contains (str "Schedule") (link_text a).

Definition is_minutes (a : anchor) : bool :=
  negb (is_schedule a) && contains (str "Minutes") (link_text a).

(** The links of the rows of the page whose date gives the key [k], in
    the order of the rows. *)
Fixpoint links_of_key (k : Z * Z) (divs : list div) : list link :=
  match divs with
  | [] => []
  | d :: divs' =>
      match row_key d with
      | Ok k' =>
          if decide (k' = k)
          then Link (str "Minutes") (a_href d) :: links_of_key k divs'
          else links_of_key k divs'
      | Raise _ => links_of_key k divs'
      end
  end.

(** ** Sample inputs *)

Definition two_june_rows : list div :=
  [Div (Some (str "6/9/2022")) (Some (str "/min1.pdf")) (Some (str "Board Meeting"));
   Div (Some (str "5/12/2022")) (Some (str "/min2.pdf")) (Some (str "Finance Committee"));
   Div (Some (str "6/23/2022")) (Some (str "/min3.pdf")) (Some (str " Special Board Meeting "))].

Definition july_entry : entry :=
  Entry (Datetime 2022 7 14 13 0 0) (Datetime 2022 7 14 14 30 0).

Definition one_june_row : list div :=
  [Div (Some (str "6/9/2022")) (Some (str "/min1.pdf")) (Some (str "Board Meeting"))].

(** A page with doubled characters, a line broken inside a word and runs
    of white space. *)
Definition sample_page : pystr :=
  str "2022  BOARD" ++ [newline] ++ str "Meetings  440 E. Congress "
  ++ [newline] ++ str "J" ++ [newline] ++ str "uly  14 9:00 am - 10:00 am".

(** An entry page with two schedule links and a documents link. *)
Definition sample_entry_page : list anchor :=
  [Anchor [str "2021"; str "Schedule"] (Some (str "/sched-2021.pdf"));
   Anchor [str "Home"] (Some (str "/"));
   Anchor [str "Board Meeting"; str "Minutes"] (Some (str "/minutes/"));
   Anchor [str "2022 Board Meeting Schedule"] (Some (str "/sched-2022.pdf"))].

(** * Properties *)

(** ** Substrings *)

Lemma ascii_eqb_true (x y : ascii) : Ascii.eqb x y = true <-> x = y.
Proof. apply Ascii.eqb_eq. Qed.

Lemma starts_with_spec (p s : pystr) :
  starts_with p s = true <-> exists t, s = p ++ t.
Proof.
  revert s. induction p as [|x p IH]; intros s; simpl.
  - split; [intros _; exists s; reflexivity | reflexivity].
  - destruct s as [|y s].
    + split; [discriminate | intros [t Ht]; discriminate].
    + rewrite andb_true_iff, ascii_eqb_true, IH. split.
      * intros [-> [t ->]]. exists t. reflexivity.
      * intros [t Ht]. injection Ht as -> ->. split; [reflexivity | eauto].
Qed.

Lemma contains_spec (needle hay : pystr) :
  contains needle hay = true <-> occurs needle hay.
Proof.
  unfold occurs. induction hay as [|y hay IH].
  - simpl. rewrite orb_false_r, starts_with_spec. split.
    + intros [t Ht]. exists [], t. exact Ht.
    + intros [pre [post H]]. destruct pre; [eauto | discriminate].
  - cbn [contains]. rewrite orb_true_iff, starts_with_spec, IH. split.
    + intros [[t Ht] | [pre [post H]]].
      * exists [], t. exact Ht.
      * exists (y :: pre), post. rewrite H. reflexivity.
    + intros [pre [post H]]. destruct pre as [|z pre].
      * left. exists post. exact H.
      * right. injection H as -> H. exists pre, post. exact H.
Qed.

Lemma contains_false (needle hay : pystr) :
  contains needle hay = false <-> ~ occurs needle hay.
Proof.
  rewrite <- contains_spec. destruct (contains needle hay); split;
    intros H; try reflexivity; try discriminate; try (intros H'; discriminate).
  exfalso. apply H. reflexivity.
Qed.

Lemma occurs_trans (a b c : pystr) : occurs a b -> occurs b c -> occurs a c.
Proof.
  intros [p1 [q1 ->]] [p2 [q2 ->]].
  exists (p2 ++ p1), (q1 ++ q2). rewrite <- !app_assoc. reflexivity.
Qed.

(** ** Classification (lines 136-144) *)

(** C5: a title in which "Board" occurs is a board meeting; otherwise one
    in which "Committee" occurs is a committee meeting; otherwise the
    meeting is not classified.  The test is case-sensitive, and "Board"
    wins over "Committee". *)
Theorem classification_board_first (title : pystr) :
  (occurs (str "Board") title -> _parse_classification title = BOARD) /\
  (~ occurs (str "Board") title -> occurs (str "Committee") title ->
   _parse_classification title = COMMITTEE) /\
  (~ occurs (str "Board") title -> ~ occurs (str "Committee") title ->
   _parse_classification title = NOT_CLASSIFIED).
Proof.
  unfold _parse_classification. repeat split.
  - intros H. apply contains_spec in H. rewrite H. reflexivity.
  - intros Hb Hc. apply contains_false in Hb. apply contains_spec in Hc.
    rewrite Hb, Hc. reflexivity.
  - intros Hb Hc. apply contains_false in Hb. apply contains_false in Hc.
    rewrite Hb, Hc. reflexivity.
Qed.

Lemma classification_board_first_witness :
  _parse_classification (str "Board Committee Joint") = BOARD /\
  _parse_classification (str "Finance Committee") = COMMITTEE /\
  _parse_classification (str "board committee") = NOT_CLASSIFIED.
Proof.
  split; [|split].
  - apply (proj1 (classification_board_first (str "Board Committee Joint"))).
    exists [], (str " Committee Joint"). reflexivity.
  - apply (proj1 (proj2 (classification_board_first (str "Finance Committee")))).
    + apply contains_false. vm_compute. reflexivity.
    + exists (str "Finance "), []. reflexivity.
  - apply (proj2 (proj2 (classification_board_first (str "board committee")))).
    + apply contains_false. vm_compute. reflexivity.
    + apply contains_false. vm_compute. reflexivity.
Defined.

(** ** Location check (lines 181-183) *)

(** C6: the check passes on every text in which "440 E. Congress" occurs,
    and raises ValueError("Meeting location has changed") on every text
    in which "440" does not occur. *)
Theorem validate_location_canary (text : pystr) :
  (occurs (str "440 E. Congress") text -> _validate_location text = Ok tt) /\
  (~ occurs (str "440") text ->
   _validate_location text = Raise location_changed).
Proof.
  unfold _validate_location. split.
  - intros H.
    assert (Hc : contains (str "440") text = true).
    { apply contains_spec. apply occurs_trans with (2 := H).
      exists [], (str " E. Congress"). reflexivity. }
    rewrite Hc. reflexivity.
  - intros H. apply contains_false in H. rewrite H. reflexivity.
Qed.

Lemma validate_location_canary_witness :
  _validate_location (str "DESC, 440 E. Congress, Detroit") = Ok tt /\
  _validate_location (str "DESC, 400 Monroe, Detroit") = Raise location_changed.
Proof.
  split.
  - apply (proj1 (validate_location_canary (str "DESC, 440 E. Congress, Detroit"))).
    exists (str "DESC, "), (str ", Detroit"). reflexivity.
  - apply (proj2 (validate_location_canary (str "DESC, 400 Monroe, Detroit"))).
    apply contains_false. vm_compute. reflexivity.
Defined.

(** ** Document index and meeting assembly (lines 106-134, 152-179) *)

Lemma dd_get_spec {V : Type} (dflt : V) (k : Z * Z) (d : gmap (Z * Z) V) :
  fst (dd_get dflt k d) = default dflt (d !! k) /\
  forall k', default dflt (snd (dd_get dflt k d) !! k') = default dflt (d !! k').
Proof.
  unfold dd_get. destruct (d !! k) as [v|] eqn:E; simpl.
  - split; [reflexivity | reflexivity].
  - split; [reflexivity |]. intros k'.
    destruct (decide (k = k')) as [<-|Hne].
    + rewrite lookup_insert_eq, E. reflexivity.
    + rewrite lookup_insert_ne by exact Hne. reflexivity.
Qed.

Lemma parse_title_spec (date : entry) (tm : gmap (Z * Z) title_val) :
  let v := default TitleDefault (tm !! key_of date) in
  fst (_parse_title date tm) = (if truthy v then title_text v else agency) /\
  forall k, default TitleDefault (snd (_parse_title date tm) !! k)
            = default TitleDefault (tm !! k).
Proof.
  intros v. unfold _parse_title.
  pose proof (dd_get_spec TitleDefault (key_of date) tm) as [H1 H2].
  destruct (dd_get TitleDefault (key_of date) tm) as [v1 tm1] eqn:E1.
  simpl in H1, H2. subst v1. fold v.
  destruct (truthy v) eqn:Ev.
  - pose proof (dd_get_spec TitleDefault (key_of date) tm1) as [H3 H4].
    destruct (dd_get TitleDefault (key_of date) tm1) as [v2 tm2] eqn:E2.
    simpl in H3, H4 |- *. split.
    + rewrite H3, H2. reflexivity.
    + intros k. rewrite H4, H2. reflexivity.
  - simpl. split; [reflexivity | exact H2].
Qed.

Lemma title_map_loop_spec (divs : list div) :
  forall (acc tm : gmap (Z * Z) title_val),
    title_map_loop divs acc = Ok tm ->
    forall k, tm !! k =
              match last_heading k divs with
              | Some t => Some (TitleStr t)
              | None => acc !! k
              end.
Proof.
  induction divs as [|d divs IH]; intros acc tm H k; simpl in H |- *.
  - injection H as <-. reflexivity.
  - destruct (row_key d) as [k'|e]; [|discriminate].
    destruct (h3_text d) as [h|]; [|discriminate].
    rewrite (IH _ _ H k). destruct (last_heading k divs); [reflexivity|].
    destruct (decide (k' = k)) as [->|Hne].
    + rewrite lookup_insert_eq. reflexivity.
    + rewrite lookup_insert_ne by exact Hne. reflexivity.
Qed.

(** C8: when the title map is built, each key is bound to one heading
    string, the (stripped) heading of the last row of the page with that
    key; a key no row has is not bound. *)
Theorem title_map_last_row_wins (response : list div)
    (title_map : gmap (Z * Z) title_val) :
  _parse_title_map response = Ok title_map ->
  forall k, title_map !! k = TitleStr <$> last_heading k response.
Proof.
  intros H k. unfold _parse_title_map in H.
  rewrite (title_map_loop_spec _ _ _ H k).
  destruct (last_heading k response); [reflexivity | apply lookup_empty].
Qed.

Lemma title_map_last_row_wins_witness :
  exists title_map,
    _parse_title_map two_june_rows = Ok title_map /\
    title_map !! (6, 2022)%Z = Some (TitleStr (str "Special Board Meeting")).
Proof.
  destruct (_parse_title_map two_june_rows) as [tm|e] eqn:E;
    [|vm_compute in E; discriminate].
  exists tm. split; [reflexivity|].
  rewrite (title_map_last_row_wins two_june_rows tm E (6, 2022)%Z).
  vm_compute. reflexivity.
Defined.

Section Assembly.

Variable _get_status : meeting_fields -> pystr.
Variable _get_id : meeting_fields -> pystr -> pystr.

Lemma assemble_spec (date : entry) (lm : gmap (Z * Z) (list link))
    (tm : gmap (Z * Z) title_val) :
  let '(m, lm1, tm1) := assemble _get_status _get_id date lm tm in
  let v := default TitleDefault (tm !! key_of date) in
  title (fields m) = (if truthy v then title_text v else agency) /\
  links (fields m) = default [] (lm !! key_of date) /\
  (forall k, default [] (lm1 !! k) = default [] (lm !! k)) /\
  (forall k, default TitleDefault (tm1 !! k) = default TitleDefault (tm !! k)).
Proof.
  unfold assemble.
  pose proof (parse_title_spec date tm) as [Ht1 Ht2].
  destruct (_parse_title date tm) as [t tm1].
  pose proof (dd_get_spec [] (key_of date) lm) as [Hl1 Hl2].
  destruct (dd_get [] (key_of date) lm) as [ls lm1].
  simpl in *. auto.
Qed.

Lemma documents_loop_spec (dates : list entry) :
  forall (lm : gmap (Z * Z) (list link)) (tm : gmap (Z * Z) title_val)
         (i : nat) (date : entry),
    dates !! i = Some date ->
    exists m,
      documents_loop _get_status _get_id dates lm tm !! i = Some m /\
      title (fields m)
      = (let v := default TitleDefault (tm !! key_of date) in
         if truthy v then title_text v else agency) /\
      links (fields m) = default [] (lm !! key_of date).
Proof.
  induction dates as [|d dates IH]; intros lm tm i date Hi; [discriminate|].
  cbn [documents_loop].
  pose proof (assemble_spec d lm tm) as Ha.
  destruct (assemble _get_status _get_id d lm tm) as [[m lm1] tm1].
  destruct Ha as (Ht & Hl & Hlm & Htm).
  destruct i as [|i]; simpl in Hi |- *.
  - injection Hi as <-. exists m. auto.
  - destruct (IH lm1 tm1 i date Hi) as (m' & Hm' & Ht' & Hl').
    exists m'. rewrite Hm', Ht', Hl', Hlm, Htm. auto.
Qed.

(** C4: once the two maps are built, an entry of the schedule whose
    (month, year) key is bound in neither of them gets a meeting (no
    exception is raised) with no links and with the name of the agency
    as title. *)
Theorem unmatched_month_falls_back (response : list div)
    (meeting_dates : list entry)
    (link_map : gmap (Z * Z) (list link))
    (title_map : gmap (Z * Z) title_val) (i : nat) (date : entry) :
  _parse_link_map response = Ok link_map ->
  _parse_title_map response = Ok title_map ->
  meeting_dates !! i = Some date ->
  link_map !! key_of date = None ->
  title_map !! key_of date = None ->
  exists ms m,
    _parse_documents _get_status _get_id response meeting_dates = Ok ms /\
    ms !! i = Some m /\
    links (fields m) = [] /\
    title (fields m) = str "Detroit Employment Solutions Corporation".
Proof.
  intros Hlm Htm Hi Hl Ht. unfold _parse_documents. rewrite Hlm, Htm.
  destruct (documents_loop_spec meeting_dates link_map title_map i date Hi)
    as (m & Hm & Htitle & Hlinks).
  exists (documents_loop _get_status _get_id meeting_dates link_map title_map), m.
  rewrite Hl in Hlinks. rewrite Ht in Htitle. simpl in Htitle, Hlinks.
  auto.
Qed.

End Assembly.

Lemma unmatched_month_falls_back_witness :
  exists ms m,
    _parse_documents (fun _ => []) (fun _ _ => []) one_june_row [july_entry]
    = Ok ms /\
    ms !! 0%nat = Some m /\
    links (fields m) = [] /\
    title (fields m) = str "Detroit Employment Solutions Corporation".
Proof.
  destruct (_parse_link_map one_june_row) as [lm|e] eqn:El;
    [|vm_compute in El; discriminate].
  destruct (_parse_title_map one_june_row) as [tm|e] eqn:Et;
    [|vm_compute in Et; discriminate].
  apply (unmatched_month_falls_back (fun _ => []) (fun _ _ => [])
           one_june_row [july_entry] lm tm 0 july_entry El Et).
  - reflexivity.
  - apply eq_sym in El. vm_compute in El. injection El as ->. vm_compute. reflexivity.
  - apply eq_sym in Et. vm_compute in Et. injection Et as ->. vm_compute. reflexivity.
Defined.

(** ** Datetime Resolver (lines 90-104, 146-150) *)

Lemma datetime_eqb_eq (a b : datetime) : datetime_eqb a b = true -> a = b.
Proof.
  destruct a, b. unfold datetime_eqb. simpl.
  rewrite !andb_true_iff, !Z.eqb_eq. intros [[[[[-> ->] ->] ->] ->] ->].
  reflexivity.
Qed.

Lemma clock_table : clock_table_ok = true.
Proof. vm_compute. reflexivity. Qed.

Lemma probe_spaced_july :
  probe_date (str "J uly 9") (str "2022") = Ok (str "July 9").
Proof. vm_compute. reflexivity. Qed.

Lemma probe_july :
  probe_date (str "July 9") (str "2022") = Ok (str "July 9").
Proof. vm_compute. reflexivity. Qed.

(** C3 (as the code has it): with the date string "J uly 9" and the year
    "2022" the resolver gives, for every time string, what it gives for
    the date string "July 9" (the first space removed, the space before
    the day kept); for every clock time h:mm am/pm it succeeds, with
    9 July 2022 at that time. *)
Theorem spaced_month_resolves_as_july_9 (time_str : pystr) :
  resolve (str "J uly 9") (str "2022") time_str
  = resolve (str "July 9") (str "2022") time_str /\
  forall (h m : nat) (pm : bool),
    (1 <= h <= 12)%nat -> (m < 60)%nat -> time_str = clock h m pm ->
    resolve (str "J uly 9") (str "2022") time_str
    = Ok (Datetime 2022 7 9 (clock_hour h pm) (Z.of_nat m) 0).
Proof.
  split.
  - unfold resolve. rewrite probe_spaced_july, probe_july. reflexivity.
  - intros h m pm Hh Hm ->.
    pose proof clock_table as T. unfold clock_table_ok in T.
    rewrite forallb_forall in T.
    assert (Hin : In h (seq 1 12)) by (apply in_seq; lia).
    specialize (T h Hin). rewrite forallb_forall in T.
    assert (Hin' : In m (seq 0 60)) by (apply in_seq; lia).
    specialize (T m Hin'). rewrite forallb_forall in T.
    assert (Hpm : In pm [false; true]) by (destruct pm; simpl; auto).
    specialize (T pm Hpm).
    destruct (resolve (str "J uly 9") (str "2022") (clock h m pm)) as [dt|e];
      [|discriminate].
    apply datetime_eqb_eq in T. rewrite T. reflexivity.
Qed.

Lemma spaced_month_resolves_as_july_9_witness :
  resolve (str "J uly 9") (str "2022") (str "1:30 pm")
  = Ok (Datetime 2022 7 9 13 30 0).
Proof.
  apply (proj2 (spaced_month_resolves_as_july_9 (str "1:30 pm")) 1%nat 30%nat true).
  - lia.
  - lia.
  - reflexivity.
Defined.

(** C3 as stated fails: the date string "July9" has no white space before
    the day, which the format asks for, so the resolver raises where
    "J uly 9" succeeds. *)
Lemma unspaced_july9_fails :
  resolve (str "J uly 9") (str "2022") (str "9:00 am")
  = Ok (Datetime 2022 7 9 9 0 0) /\
  resolve (str "July9") (str "2022") (str "9:00 am") = Raise no_match.
Proof. split; vm_compute; reflexivity. Qed.

(** ** Alignment of dates and times (lines 87-104) *)

Lemma strptime_raises (s : pystr) (e : exn) :
  strptime s = Raise e -> (exists msg, e = ValueError msg) /\ e <> mismatch.
Proof.
  unfold strptime, no_match, mismatch.
  destruct (re_match strptime_re s) as [found|];
    [|intros [= <-]; split; [eauto | discriminate]].
  destruct (rest found); [|intros [= <-]; split; [eauto | discriminate]].
  destruct (index_from _ _ _); [|intros [= <-]; split; [eauto | discriminate]].
  destruct (valid_date _ _ _); [discriminate|].
  intros [= <-]; split; [eauto | discriminate].
Qed.

Lemma probe_date_total (d y : pystr) : exists d', probe_date d y = Ok d'.
Proof.
  unfold probe_date. destruct (strptime _) as [dt|e] eqn:E; [eauto|].
  apply strptime_raises in E as [[msg ->] _]. eauto.
Qed.

Lemma resolve_entry_raises (ds : list pystr) (tts : list (list pystr))
    (y : pystr) (i : nat) (e : exn) :
  resolve_entry ds tts y i = Raise e -> e <> mismatch.
Proof.
  unfold resolve_entry, _parse_datetime, mismatch.
  destruct (ds !! i) as [d|]; [|intros [= <-]; discriminate].
  destruct (probe_date_total d y) as [d' ->].
  destruct (tts !! i) as [tup|]; [|intros [= <-]; discriminate].
  destruct (tup !! 0%nat) as [t0|]; [|intros [= <-]; discriminate].
  destruct (tup !! 1%nat) as [t1|]; [|intros [= <-]; discriminate].
  destruct (strptime (format3 d' y t0)) as [dt1|e1] eqn:E1.
  - destruct (strptime (format3 d' y t1)) as [dt2|e2] eqn:E2; [intros [=]|].
    intros H. injection H as H. subst e2.
    apply strptime_raises in E2. apply E2.
  - intros H. injection H as H. subst e1.
    apply strptime_raises in E1. apply E1.
Qed.

(** The loop appends the entries of the indices in order, and stops at
    the first index that does not resolve, raising its error. *)
Lemma schedule_loop_spec (ds : list pystr) (tts : list (list pystr))
    (y : pystr) (idx : list nat) :
  forall md : list entry,
  exists added out,
    schedule_loop ds tts y idx md = (md ++ added, out) /\
    Forall2 (fun i en => resolve_entry ds tts y i = Ok en)
      (take (length added) idx) added /\
    ((out = Ok tt /\ length added = length idx) \/
     (exists i e, idx !! length added = Some i /\
                  resolve_entry ds tts y i = Raise e /\ out = Raise e)).
Proof.
  induction idx as [|i idx IH]; intros md; cbn [schedule_loop].
  - exists [], (Ok tt). rewrite app_nil_r. split; [reflexivity|].
    split; [constructor | left; auto].
  - destruct (resolve_entry ds tts y i) as [en|e] eqn:E.
    + destruct (IH (md ++ [en])) as (added & out & Hrun & Hall & Hout).
      exists (en :: added), out. rewrite Hrun, <- app_assoc. simpl.
      split; [reflexivity|]. split; [constructor; assumption|].
      destruct Hout as [[-> Hlen] | (j & e & Hj & He & ->)].
      * left. split; [reflexivity | lia].
      * right. exists j, e. auto.
    + exists [], (Raise e). rewrite app_nil_r. split; [reflexivity|].
      split; [constructor|]. right. exists i, e. auto.
Qed.

(** C1 (as the code has it): when the number of date strings differs from
    the number of time pairs, an exception is raised and nothing is
    appended to the schedule; it is the ValueError "Not all dates can be
    matched with start and end time" once a year and the location were
    found.  When the numbers are equal that error is not raised: the
    entries are appended one per index, in order, up to the first index
    whose date or time does not parse, whose error is raised; when every
    index parses, exactly one entry per index is appended and nothing is
    raised. *)
Theorem dates_align_with_times (pdf_text : pystr) (meeting_dates : list entry) :
  let clean := clean_text pdf_text in
  let date_strs := date_strs_of clean in
  let time_tuples := time_tuples_of clean in
  (length date_strs <> length time_tuples ->
   exists e,
     parse_schedule_text pdf_text meeting_dates = (meeting_dates, Raise e) /\
     (forall year_str,
        re_search year_re clean = Some year_str ->
        _validate_location clean = Ok tt -> e = mismatch)) /\
  (length date_strs = length time_tuples ->
   forall year_str,
     re_search year_re clean = Some year_str ->
     _validate_location clean = Ok tt ->
     exists added out,
       parse_schedule_text pdf_text meeting_dates
       = (meeting_dates ++ added, out) /\
       out <> Raise mismatch /\
       (forall i en,
          added !! i = Some en ->
          resolve_entry date_strs time_tuples year_str i = Ok en) /\
       ((out = Ok tt /\ length added = length date_strs) \/
        (exists e,
           resolve_entry date_strs time_tuples year_str (length added)
           = Raise e /\ out = Raise e /\ length added < length date_strs))).
Proof.
  intros clean date_strs time_tuples. unfold parse_schedule_text.
  fold clean. fold time_tuples. fold date_strs. split.
  - intros Hne.
    destruct (re_search year_re clean) as [year_str|]; [|eauto].
    + destruct (_validate_location clean) as [[]|e] eqn:Ev.
      * assert (Hb : Nat.eqb (length time_tuples) (length date_strs) = false)
          by (apply Nat.eqb_neq; congruence).
        rewrite Hb. simpl. eauto.
      * exists e. split; [reflexivity|]. intros _ _ [=].
    + exists AttributeError. split; [reflexivity|]. intros ? [=].
  - intros Heq year_str Hy Hv. rewrite Hy, Hv.
    assert (Hb : Nat.eqb (length time_tuples) (length date_strs) = true)
      by (apply Nat.eqb_eq; congruence).
    rewrite Hb. simpl.
    assert (Hn : length (time_strs_of clean) = length date_strs).
    { rewrite Heq. unfold time_tuples, time_tuples_of. rewrite length_map.
      reflexivity. }
    rewrite Hn.
    destruct (schedule_loop_spec date_strs time_tuples year_str
                (seq 0 (length date_strs)) meeting_dates)
      as (added & out & Hrun & Hall & Hout).
    exists added, out. split; [exact Hrun|].
    assert (Hlen : length added <= length date_strs).
    { apply Forall2_length in Hall. rewrite length_take, length_seq in Hall. lia. }
    split; [|split].
    + destruct Hout as [[-> _] | (i & e & _ & He & ->)]; [discriminate|].
      apply resolve_entry_raises in He. congruence.
    + intros i en Hi.
      assert (Hlt : i < length added) by (eapply lookup_lt_Some; eauto).
      rewrite Forall2_lookup in Hall. specialize (Hall i).
      rewrite Hi in Hall. inversion Hall as [a b Hab Ha Hb'|]; subst.
      symmetry in Ha. apply lookup_take_Some in Ha as [Ha _].
      apply lookup_seq in Ha as [-> _]. exact Hab.
    + destruct Hout as [[-> Hl] | (i & e & Hi & He & ->)].
      * left. rewrite length_seq in Hl. auto.
      * right. apply lookup_seq in Hi as [-> Hi]. exists e. auto.
Qed.

Lemma dates_align_with_times_witness :
  parse_schedule_text (str "2022 440 E. Congress June 9") []
  = ([], Raise mismatch) /\
  exists added,
    parse_schedule_text (str "2022 440 E. Congress 9:00 am - 10:00 am June 9") []
    = (added, Ok tt) /\ length added = 1%nat.
Proof.
  split.
  - destruct (dates_align_with_times (str "2022 440 E. Congress June 9") [])
      as [H _].
    destruct H as (e & Hrun & He); [vm_compute; lia|].
    rewrite Hrun, (He (str "2022")); [reflexivity | |]; vm_compute; reflexivity.
  - destruct (dates_align_with_times
                (str "2022 440 E. Congress 9:00 am - 10:00 am June 9") [])
      as [_ H].
    destruct (H ltac:(vm_compute; reflexivity) (str "2022")
                ltac:(vm_compute; reflexivity) ltac:(vm_compute; reflexivity))
      as (added & out & Hrun & _ & _ & Hout).
    destruct Hout as [[-> Hlen] | (e & He & -> & Hlt)].
    + exists added. split; [exact Hrun | exact Hlen].
    + exfalso. vm_compute in Hrun. injection Hrun as _ Hout. discriminate.
Defined.

(** C1 as stated fails: in the first text there is one date string and
    one time pair, yet no entry is appended, since "Monday 9" is not a
    date; in the second there is one date string and no time pair, and
    the exception is the AttributeError of the search for the year, not
    a ValueError. *)
Lemma equal_counts_without_entry :
  (let clean := clean_text (str "2022 440 Monday 9 9:00 am 10:00 am") in
   length (date_strs_of clean) = 1%nat /\
   length (time_tuples_of clean) = 1%nat /\
   parse_schedule_text (str "2022 440 Monday 9 9:00 am 10:00 am") []
   = ([], Raise no_match)) /\
  (let clean := clean_text (str "June 9") in
   length (date_strs_of clean) = 1%nat /\
   length (time_tuples_of clean) = 0%nat /\
   parse_schedule_text (str "June 9") [] = ([], Raise AttributeError)).
Proof. vm_compute. auto. Qed.

(** ** The matcher lists what the patterns match *)

Lemma starts_with_app (w a : pystr) : starts_with w (w ++ a) = true.
Proof. apply starts_with_spec. eauto. Qed.

Lemma rep_In (gr : bool) (c : ascii -> bool) (a : list ascii) :
  forall (lo : nat) (hi : option nat) (b b' a' : list ascii),
    In (b', a') (rep gr c lo hi b a) <->
    exists w, a = w ++ a' /\ b' = rev w ++ b /\ forallb c w = true /\
              lo <= length w /\ within hi (length w).
Proof.
  induction a as [|x a IH]; intros lo hi b b' a'.
  - simpl. rewrite app_nil_r.
    assert (E : (if gr then match lo with 0 => [(b, @nil ascii)] | S _ => [] end
                 else match lo with 0 => [(b, [])] | S _ => [] end)
                = match lo with 0 => [(b, [])] | S _ => [] end)
      by (destruct gr; reflexivity).
    rewrite E. clear E. split.
    + destruct lo; simpl; [|tauto]. intros [[= <- <-]|[]].
      exists []. simpl. repeat split; try lia. destruct hi; simpl; lia.
    + intros (w & Hw & -> & _ & Hlo & _).
      symmetry in Hw. apply app_eq_nil in Hw as [-> ->].
      simpl in Hlo. destruct lo; [left; reflexivity | lia].
  - cbn [rep].
    set (stop := match lo with 0 => [(b, x :: a)] | S _ => [] end).
    set (more := if c x && room hi
                 then rep gr c (Nat.pred lo) (Nat.pred <$> hi) (x :: b) a
                 else []).
    assert (E : In (b', a') (if gr then more ++ stop else stop ++ more)
                <-> In (b', a') stop \/ In (b', a') more).
    { destruct gr; rewrite in_app_iff; tauto. }
    rewrite E. clear E. split.
    + intros [Hs | Hm].
      * subst stop. destruct lo; [|destruct Hs].
        destruct Hs as [[= <- <-]|[]]. exists []. simpl.
        repeat split; try lia. destruct hi; simpl; lia.
      * subst more. destruct (c x) eqn:Ec; [|destruct Hm].
        destruct (room hi) eqn:Er; [|destruct Hm]. simpl in Hm.
        apply IH in Hm as (w & -> & -> & Hw & Hlo & Hhi).
        exists (x :: w). simpl. rewrite Ec, Hw, <- app_assoc. simpl.
        repeat split; try lia.
        destruct hi as [[|h]|]; simpl in *; try discriminate; lia.
    + intros (w & Hw & -> & Hc & Hlo & Hhi). destruct w as [|y w].
      * left. simpl in Hw. subst a'. subst stop. simpl in Hlo.
        destruct lo; [left; reflexivity | lia].
      * right. simpl in Hw. injection Hw as <- ->. simpl in Hc.
        apply andb_true_iff in Hc as [Ec Hc]. subst more. rewrite Ec.
        assert (Er : room hi = true).
        { destruct hi as [[|h]|]; simpl in *; try reflexivity; lia. }
        rewrite Er. simpl. apply IH. exists w. simpl in Hlo, Hhi.
        split; [reflexivity|]. split; [simpl; rewrite <- app_assoc; reflexivity|].
        split; [assumption|]. split; [lia|].
        destruct hi as [[|h]|]; simpl in *; lia.
Qed.

Lemma ends_sound (r : regex) :
  forall st st', In st' (ends r st) -> sem r st st'.
Proof.
  induction r as [|c|gr c lo hi|r1 IH1 r2 IH2|r1 IH1 r2 IH2|n r IH|n|c|c];
    intros [b a g] st' H; simpl in H.
  - destruct H as [<-|[]]. constructor.
  - destruct a as [|x a]; [destruct H|].
    destruct (c x) eqn:Ec; [|destruct H]. destruct H as [<-|[]].
    constructor. exact Ec.
  - apply in_map_iff in H as ([b' a'] & <- & H).
    apply rep_In in H as (w & -> & -> & Hc & Hlo & Hhi). simpl.
    constructor; assumption.
  - apply in_flat_map in H as (st1 & H1 & H2).
    econstructor; [apply IH1 | apply IH2]; eassumption.
  - apply in_app_iff in H as [H|H].
    + apply sem_alt_l. apply IH1. exact H.
    + apply sem_alt_r. apply IH2. exact H.
  - apply in_map_iff in H as (st1 & <- & H).
    apply (sem_group n r (MState b a g) st1). apply IH. exact H.
  - destruct (group_lookup n g) as [w|] eqn:Eg; [|destruct H].
    destruct (starts_with w a) eqn:Es; [|destruct H].
    destruct H as [<-|[]]. apply starts_with_spec in Es as [t ->].
    rewrite drop_app_length. constructor. exact Eg.
  - destruct b as [|x b]; [destruct H|].
    destruct (c x) eqn:Ec; [|destruct H]. destruct H as [<-|[]].
    constructor. exact Ec.
  - destruct a as [|x a].
    + destruct H as [<-|[]]. constructor.
    + destruct (c x) eqn:Ec; [destruct H|]. destruct H as [<-|[]].
      constructor. exact Ec.
Qed.

Lemma ends_complete (r : regex) (st st' : mstate) :
  sem r st st' -> In st' (ends r st).
Proof.
  induction 1; simpl.
  - left. reflexivity.
  - rewrite H. left. reflexivity.
  - apply in_map_iff. exists (rev w ++ b, a). split; [reflexivity|].
    apply rep_In. exists w. auto.
  - apply in_flat_map. eauto.
  - apply in_app_iff. auto.
  - apply in_app_iff. auto.
  - apply in_map_iff. exists st'. auto.
  - rewrite H, starts_with_app, drop_app_length. left. reflexivity.
  - rewrite H. left. reflexivity.
  - left. reflexivity.
  - rewrite H. left. reflexivity.
Qed.

Lemma ends_sem (r : regex) (st st' : mstate) :
  In st' (ends r st) <-> sem r st st'.
Proof. split; [apply ends_sound | apply ends_complete]. Qed.

(** A match moves forward over a piece of the text ahead. *)
Lemma sem_moves (r : regex) (st st' : mstate) :
  sem r st st' ->
  exists w, rest st = w ++ rest st' /\ seen st' = rev w ++ seen st.
Proof.
  induction 1; simpl.
  - exists []. auto.
  - exists [x]. auto.
  - exists w. auto.
  - destruct IHsem1 as (w1 & E1 & F1). destruct IHsem2 as (w2 & E2 & F2).
    exists (w1 ++ w2). rewrite E1, E2, F2, F1, rev_app_distr, <- !app_assoc.
    auto.
  - assumption.
  - assumption.
  - assumption.
  - exists w. auto.
  - exists []. auto.
  - exists []. auto.
  - exists []. auto.
Qed.

(** ** The scan *)

Lemma head_In {A : Type} (l : list A) (x : A) : head l = Some x -> In x l.
Proof. destruct l; [discriminate | intros [= ->]; left; reflexivity]. Qed.

Lemma match_at_sem (r : regex) (b a : list ascii) (st' : mstate) :
  match_at r b a = Some st' -> sem r (MState b a []) st'.
Proof. intros H. apply ends_sound, head_In, H. Qed.

Lemma match_at_moves (r : regex) (b a : list ascii) (st' : mstate) :
  match_at r b a = Some st' ->
  exists w, a = w ++ rest st' /\ seen st' = rev w ++ b.
Proof. intros H. apply match_at_sem, sem_moves in H. exact H. Qed.

Lemma sem_match_at (r : regex) (b a : list ascii) (st' : mstate) :
  sem r (MState b a []) st' -> exists st'', match_at r b a = Some st''.
Proof.
  intros H. apply ends_complete in H. unfold match_at.
  destruct (ends r (MState b a [])); [destruct H | simpl; eauto].
Qed.

Lemma length_app_sub (w r : list ascii) : length (w ++ r) - length r = length w.
Proof. rewrite length_app. lia. Qed.

Lemma scan_skip (r : regex) (w : list ascii) :
  forall a b, scan r b (w ++ a) (length w) = scan r (rev w ++ b) a 0.
Proof.
  induction w as [|x w IH]; intros a b; [reflexivity|].
  cbn [app length scan]. rewrite IH. simpl. rewrite <- app_assoc. reflexivity.
Qed.

Lemma scan_match (r : regex) (b a w : list ascii) (st' : mstate) :
  match_at r b a = Some st' -> a = w ++ rest st' -> w <> [] ->
  scan r b a 0 = TMatch w (grp st') :: scan r (rev w ++ b) (rest st') 0.
Proof.
  intros Hm -> Hw. destruct w as [|x w]; [congruence|].
  cbn [app scan] in *. rewrite Hm.
  change (x :: w ++ rest st') with ((x :: w) ++ rest st').
  rewrite length_app_sub, take_app_length. cbn [length].
  rewrite scan_skip. simpl. rewrite <- app_assoc. reflexivity.
Qed.

Lemma scan_nomatch (r : regex) (b a : list ascii) (x : ascii) :
  match_at r b (x :: a) = None ->
  scan r b (x :: a) 0 = TChar x :: scan r (x :: b) a 0.
Proof. intros H. cbn [scan]. rewrite H. reflexivity. Qed.

Lemma scan_0 (r : regex) (b a : list ascii) :
  scan r b a 0 =
  match match_at r b a with
  | Some st' =>
      TMatch (take (length a - length (rest st')) a) (grp st') ::
      match a with
      | x :: a' =>
          match length a - length (rest st') with
          | 0 => TChar x :: scan r (x :: b) a' 0
          | S k => scan r (x :: b) a' k
          end
      | [] => []
      end
  | None =>
      match a with
      | x :: a' => TChar x :: scan r (x :: b) a' 0
      | [] => []
      end
  end.
Proof. destruct a; reflexivity. Qed.

(** Every match of the scan is the match the matcher reports at some
    position of the text. *)
Lemma scan_matches_sound (r : regex) (a : list ascii) :
  forall b skip w g,
    In (w, g) (matches_of (scan r b a skip)) ->
    exists pre post st',
      a = pre ++ w ++ post /\
      match_at r (rev pre ++ b) (w ++ post) = Some st' /\
      rest st' = post /\ grp st' = g.
Proof.
  induction a as [|x a IH]; intros b skip w g H.
  - destruct skip; [|destruct H]. cbn [scan] in H.
    destruct (match_at r b []) as [st'|] eqn:Em; [|destruct H].
    destruct H as [[= <- <-]|[]].
    destruct (match_at_moves _ _ _ _ Em) as (w0 & E0 & _).
    symmetry in E0. apply app_eq_nil in E0 as [-> E0].
    exists [], [], st'. simpl. auto.
  - destruct skip as [|k].
    + rewrite scan_0 in H.
      destruct (match_at r b (x :: a)) as [st'|] eqn:Em.
      * destruct (match_at_moves _ _ _ _ Em) as (w0 & E0 & _).
        assert (Et : take (length (x :: a) - length (rest st')) (x :: a) = w0).
        { rewrite E0, length_app_sub, take_app_length. reflexivity. }
        rewrite Et in H.
        cbn [matches_of] in H. destruct H as [[= <- <-]|H].
        -- exists [], (rest st'), st'. simpl. rewrite <- E0. auto.
        -- assert (H' : exists k', In (w, g) (matches_of (scan r (x :: b) a k'))).
           { destruct (length (x :: a) - length (rest st')); eauto. }
           destruct H' as (k' & H').
           apply IH in H' as (pre & post & st'' & -> & Hm & Hr & Hg).
           exists (x :: pre), post, st''. simpl. rewrite <- app_assoc. auto.
      * cbn [matches_of] in H.
        apply IH in H as (pre & post & st'' & -> & Hm & Hr & Hg).
        exists (x :: pre), post, st''. simpl. rewrite <- app_assoc. auto.
    + cbn [scan] in H.
      apply IH in H as (pre & post & st'' & -> & Hm & Hr & Hg).
      exists (x :: pre), post, st''. simpl. rewrite <- app_assoc. auto.
Qed.

(** A scan without a match: the matcher reports none at any position. *)
Lemma scan_no_match (r : regex) (a : list ascii) :
  forall b,
    matches_of (scan r b a 0) = [] ->
    forall pre post, a = pre ++ post -> match_at r (rev pre ++ b) post = None.
Proof.
  induction a as [|x a IH]; intros b H pre post E.
  - symmetry in E. apply app_eq_nil in E as [-> ->]. simpl.
    cbn [scan] in H. destruct (match_at r b []); [discriminate | reflexivity].
  - cbn [scan] in H. destruct (match_at r b (x :: a)) eqn:Em; [discriminate|].
    cbn [matches_of] in H. destruct pre as [|y pre].
    + simpl in E. subst post. exact Em.
    + simpl in E. injection E as <- E. simpl. rewrite <- app_assoc.
      apply (IH (x :: b) H pre post E).
Qed.

Lemma findall_sound (r : regex) (s w : pystr) :
  In w (re_findall r s) ->
  exists pre post st',
    s = pre ++ w ++ post /\
    match_at r (rev pre) (w ++ post) = Some st' /\ rest st' = post.
Proof.
  unfold re_findall, tokens. intros H.
  apply in_map_iff in H as ([w' g] & <- & H).
  apply scan_matches_sound in H as (pre & post & st' & E & Hm & Hr & _).
  rewrite app_nil_r in Hm. exists pre, post, st'. auto.
Qed.

Lemma findall_nil (r : regex) (s : pystr) :
  re_findall r s = [] <->
  forall pre post, s = pre ++ post -> match_at r (rev pre) post = None.
Proof.
  split.
  - unfold re_findall, tokens. intros H pre post E.
    apply map_eq_nil in H.
    pose proof (scan_no_match r s [] H pre post E) as Hn.
    rewrite app_nil_r in Hn. exact Hn.
  - intros H. destruct (re_findall r s) as [|w l] eqn:E; [reflexivity|].
    assert (Hin : In w (re_findall r s)) by (rewrite E; left; reflexivity).
    apply findall_sound in Hin as (pre & post & st' & Es & Hm & _).
    rewrite (H pre (w ++ post) Es) in Hm. discriminate.
Qed.

(** ** Reading a match off a pattern *)

Lemma sem_eps_inv (st st' : mstate) : sem Eps st st' -> st' = st.
Proof. inversion 1. reflexivity. Qed.

Lemma sem_seq_inv (r1 r2 : regex) (st st2 : mstate) :
  sem (Seq r1 r2) st st2 -> exists st1, sem r1 st st1 /\ sem r2 st1 st2.
Proof. inversion 1; subst. eauto. Qed.

Lemma sem_alt_inv (r1 r2 : regex) (st st' : mstate) :
  sem (Alt r1 r2) st st' -> sem r1 st st' \/ sem r2 st st'.
Proof. inversion 1; subst; auto. Qed.

Lemma sem_chr_inv (c : ascii -> bool) (st st' : mstate) :
  sem (Chr c) st st' ->
  exists x, c x = true /\ rest st = x :: rest st' /\
            seen st' = x :: seen st /\ grp st' = grp st.
Proof. inversion 1; subst. simpl. eauto. Qed.

Lemma sem_rep_inv (gr : bool) (c : ascii -> bool) (lo : nat)
    (hi : option nat) (st st' : mstate) :
  sem (Rep gr c lo hi) st st' ->
  exists w, (forallb c w = true /\ lo <= length w /\ within hi (length w)) /\
            rest st = w ++ rest st' /\
            seen st' = rev w ++ seen st /\ grp st' = grp st.
Proof. inversion 1; subst. simpl. eauto 10. Qed.

Lemma sem_notahead_inv (c : ascii -> bool) (st st' : mstate) :
  sem (NotAhead c) st st' ->
  st' = st /\ match rest st with [] => True | x :: _ => c x = false end.
Proof. inversion 1; subst; simpl; auto. Qed.

Lemma sem_group_inv (n : nat) (r : regex) (st st' : mstate) :
  sem (Group n r) st st' ->
  exists st1, sem r st st1 /\ seen st' = seen st1 /\ rest st' = rest st1 /\
              grp st' = (n, take (length (rest st) - length (rest st1)) (rest st))
                          :: grp st1.
Proof. inversion 1; subst. simpl. eauto. Qed.

Lemma mstate_eta (st : mstate) : st = MState (seen st) (rest st) (grp st).
Proof. destruct st. reflexivity. Qed.

Ltac sem_inv :=
  repeat match goal with
  | H : sem (Seq _ _) _ _ |- _ =>
      apply sem_seq_inv in H; destruct H as (? & ? & ?)
  | H : sem (Chr _) _ _ |- _ =>
      apply sem_chr_inv in H; destruct H as (? & ? & ? & ? & ?)
  | H : sem (Rep _ _ _ _) _ _ |- _ =>
      apply sem_rep_inv in H; destruct H as (? & ? & ? & ? & ?)
  | H : sem (NotAhead _) _ _ |- _ =>
      apply sem_notahead_inv in H; destruct H as (? & ?)
  | H : sem Eps _ _ |- _ => apply sem_eps_inv in H
  end.

(** ** Date strings (lines 83-85) *)

Lemma date_re_sound (st st' : mstate) :
  sem date_re st st' ->
  exists m, date_shape m /\ rest st = m ++ rest st' /\
            no_digit_next (rest st') /\
            seen st' = rev m ++ seen st /\ grp st' = grp st.
Proof.
  unfold date_re. intros H. sem_inv. subst.
  repeat match goal with H : rest _ = _ |- _ => rewrite H; clear H end.
  repeat match goal with H : seen _ = _ |- _ => rewrite H; clear H end.
  repeat match goal with H : grp _ = _ |- _ => rewrite H; clear H end.
  match goal with
  | |- exists m, _ /\ ?c :: ?w1 ++ ?s1 ++ ?w2 ++ ?s2 ++ ?d ++ ?r = m ++ ?r /\ _ =>
      exists ([c] ++ w1 ++ s1 ++ w2 ++ s2 ++ d)
  end.
  split; [|split; [|split; [|split]]].
  - unfold date_shape. do 6 eexists. split; [reflexivity|].
    unfold within in *. intuition.
  - rewrite <- !app_assoc. reflexivity.
  - unfold no_digit_next. assumption.
  - rewrite !rev_app_distr. simpl. rewrite <- !app_assoc. reflexivity.
  - reflexivity.
Qed.

Lemma date_re_complete (m post b : pystr) (g : list (nat * pystr)) :
  date_shape m -> no_digit_next post ->
  sem date_re (MState b (m ++ post) g) (MState (rev m ++ b) post g).
Proof.
  intros (c0 & w1 & s1 & w2 & s2 & d & -> & Hc & [Hw1 L1] & [Hs1 Ls1]
          & [Hw2 L2] & [Hs2 Ls2] & [Hd Ld]) Hpost.
  replace (rev ([c0] ++ w1 ++ s1 ++ w2 ++ s2 ++ d) ++ b)
    with (rev d ++ rev s2 ++ rev w2 ++ rev s1 ++ rev w1 ++ c0 :: b)
    by (rewrite !rev_app_distr; simpl; rewrite <- !app_assoc; reflexivity).
  rewrite <- !app_assoc. simpl. unfold date_re.
  eapply sem_seq; [apply sem_chr; exact Hc|].
  eapply sem_seq; [apply sem_rep; simpl; auto; lia|].
  eapply sem_seq; [apply sem_rep; simpl; auto; lia|].
  eapply sem_seq; [apply sem_rep; simpl; auto; lia|].
  eapply sem_seq; [apply sem_rep; simpl; auto; lia|].
  eapply sem_seq; [apply sem_rep; simpl; auto; lia|].
  destruct post as [|x post]; [apply sem_notahead_end|].
  apply sem_notahead. exact Hpost.
Qed.

Lemma scan_text (r : regex) (a : list ascii) :
  forall b skip, concat (map token_text (scan r b a skip)) = drop skip a.
Proof.
  induction a as [|x a IH]; intros b skip.
  - destruct skip; [|reflexivity]. rewrite scan_0.
    destruct (match_at r b []); reflexivity.
  - destruct skip as [|k]; [|cbn [scan]; rewrite IH; reflexivity].
    rewrite scan_0. destruct (match_at r b (x :: a)) as [st'|].
    + destruct (length (x :: a) - length (rest st')) as [|n] eqn:En.
      * simpl. rewrite IH. reflexivity.
      * cbn [map concat token_text]. rewrite IH.
        change (drop n a) with (drop (S n) (x :: a)).
        rewrite take_drop. reflexivity.
    + simpl. rewrite IH. reflexivity.
Qed.

Lemma matches_of_texts (ts : list token) :
  map fst (matches_of ts)
  = omap (fun t => match t with TMatch w _ => Some w | TChar _ => None end) ts.
Proof.
  induction ts as [|[c|w g] ts IH]; simpl; [reflexivity | exact IH |].
  rewrite IH. reflexivity.
Qed.

(** ** Text Normalizer (lines 65-70) *)

Lemma head_app_nonnil {A : Type} (l1 l2 : list A) :
  head (l1 ++ l2) = match head l1 with Some x => Some x | None => head l2 end.
Proof. destruct l1; reflexivity. Qed.

Lemma head_None_nil {A : Type} (l : list A) : head l = None -> l = [].
Proof. destruct l; [reflexivity | discriminate]. Qed.

(** A greedy unbounded repetition stops first after the longest run. *)
Lemma rep_greedy_head (c : ascii -> bool) (a : list ascii) :
  forall lo b,
    head (rep true c lo None b a)
    = if (lo <=? length (fst (span c a)))%nat
      then Some (rev (fst (span c a)) ++ b, snd (span c a))
      else None.
Proof.
  induction a as [|x a IH]; intros lo b.
  - simpl. destruct lo; reflexivity.
  - cbn [rep span]. destruct (c x) eqn:Ec.
    + cbn [andb room fmap option_fmap option_map fst snd length].
      rewrite head_app_nonnil, IH.
      destruct lo as [|lo]; cbn [Nat.pred].
      * simpl. rewrite <- app_assoc. reflexivity.
      * change (S lo <=? S (length (fst (span c a))))%nat
          with (lo <=? length (fst (span c a)))%nat.
        destruct (lo <=? length (fst (span c a)))%nat.
        -- simpl. rewrite <- app_assoc. reflexivity.
        -- reflexivity.
    + simpl. destruct lo; reflexivity.
Qed.

Lemma span_app (c : ascii -> bool) (s : pystr) :
  s = fst (span c s) ++ snd (span c s).
Proof.
  induction s as [|x s IH]; [reflexivity|]. simpl.
  destruct (c x); simpl; [rewrite <- IH|]; reflexivity.
Qed.

Lemma span_all (c : ascii -> bool) (s : pystr) :
  forallb c (fst (span c s)) = true.
Proof.
  induction s as [|x s IH]; [reflexivity|]. simpl.
  destruct (c x) eqn:Ec; simpl; [rewrite Ec, IH|]; reflexivity.
Qed.

Lemma span_next (c : ascii -> bool) (s : pystr) :
  match snd (span c s) with [] => True | y :: _ => c y = false end.
Proof.
  induction s as [|x s IH]; [exact I|]. simpl.
  destruct (c x) eqn:Ec; simpl; [exact IH | exact Ec].
Qed.

Lemma match_at_ws (b a : list ascii) :
  match_at ws_re b a
  = match fst (span is_space a) with
    | [] => None
    | w => Some (MState (rev w ++ b) (snd (span is_space a)) [])
    end.
Proof.
  unfold match_at, ws_re. cbn [ends seen rest grp].
  pose proof (rep_greedy_head is_space a 1 b) as H.
  destruct (rep true is_space 1 None b a) as [|[b' a'] l].
  - simpl in H |- *. destruct (fst (span is_space a)); [reflexivity|].
    discriminate.
  - simpl in H |- *. destruct (fst (span is_space a)); [discriminate|].
    simpl in H. injection H as -> ->. reflexivity.
Qed.

Lemma collapse_spaces_scan (s : pystr) :
  forall b, collapse_spaces s = subst_tokens one_space (scan ws_re b s 0).
Proof.
  unfold collapse_spaces, re_sub, tokens. generalize (@nil ascii) as b0.
  induction (Nat.lt_wf_0_projected (@length ascii) s) as [s _ IH].
  intros b0 b. destruct s as [|x s]; [reflexivity|].
  pose proof (match_at_ws b0 (x :: s)) as M0.
  pose proof (match_at_ws b (x :: s)) as M.
  destruct (fst (span is_space (x :: s))) as [|y w] eqn:Ew.
  - rewrite !scan_nomatch by assumption. simpl. f_equal.
    apply IH. simpl. lia.
  - pose proof (span_app is_space (x :: s)) as Es. rewrite Ew in Es.
    rewrite (scan_match _ _ _ (y :: w) _ M0 Es) by discriminate.
    rewrite (scan_match _ _ _ (y :: w) _ M Es) by discriminate.
    cbn [subst_tokens grp rest]. f_equal. apply IH.
    rewrite Es at 2. simpl. rewrite length_app. lia.
Qed.

Lemma collapse_spaces_nil : collapse_spaces [] = [].
Proof. reflexivity. Qed.

Lemma collapse_spaces_cons (x : ascii) (s : pystr) :
  collapse_spaces (x :: s)
  = if is_space x then " " :: collapse_spaces (snd (span is_space s))
    else x :: collapse_spaces s.
Proof.
  unfold collapse_spaces at 1. unfold re_sub, tokens.
  pose proof (match_at_ws [] (x :: s)) as M.
  pose proof (span_app is_space (x :: s)) as Es.
  cbn [span] in M, Es. destruct (is_space x); cbn [fst snd] in M, Es.
  - rewrite (scan_match _ _ _ _ _ M Es) by discriminate.
    cbn [subst_tokens grp rest]. unfold one_space at 1. simpl. f_equal.
    symmetry. apply collapse_spaces_scan.
  - rewrite scan_nomatch by exact M. simpl. f_equal.
    symmetry. apply collapse_spaces_scan.
Qed.

Lemma span_length (c : ascii -> bool) (s : pystr) :
  length (snd (span c s)) <= length s.
Proof.
  induction s as [|x s IH]; [simpl; lia|]. simpl.
  destruct (c x); simpl; lia.
Qed.

Lemma span_starts_nonspace (s : pystr) :
  starts_nonspace (snd (span is_space s)) = true.
Proof.
  pose proof (span_next is_space s) as H. unfold starts_nonspace.
  destruct (snd (span is_space s)); [reflexivity | rewrite H; reflexivity].
Qed.

Lemma collapse_spaces_collapsed_aux (n : nat) :
  forall s, length s <= n ->
    collapsed (collapse_spaces s) = true /\
    (starts_nonspace s = true -> starts_nonspace (collapse_spaces s) = true).
Proof.
  induction n as [|n IH]; intros s Hn.
  - destruct s; [simpl; auto | simpl in Hn; lia].
  - destruct s as [|x s]; [simpl; auto|]. simpl in Hn.
    rewrite collapse_spaces_cons. destruct (is_space x) eqn:Ex.
    + pose proof (span_length is_space s) as Hl.
      destruct (IH (snd (span is_space s)) ltac:(lia)) as [Hc Hs].
      split; [|simpl; rewrite Ex; discriminate].
      cbn [collapsed]. rewrite Hc, (Hs (span_starts_nonspace s)).
      reflexivity.
    + destruct (IH s ltac:(lia)) as [Hc _].
      split; [|intros _; simpl; rewrite Ex; reflexivity].
      cbn [collapsed]. rewrite Ex, Hc. reflexivity.
Qed.

Lemma collapse_spaces_collapsed (s : pystr) :
  collapsed (collapse_spaces s) = true.
Proof. apply (collapse_spaces_collapsed_aux (length s) s (le_n _)). Qed.

Lemma span_nonspace (t : pystr) :
  starts_nonspace t = true -> snd (span is_space t) = t.
Proof.
  destruct t as [|y t]; [reflexivity|]. simpl.
  destruct (is_space y); [discriminate | reflexivity].
Qed.

Lemma collapsed_fixed (t : pystr) :
  collapsed t = true -> collapse_spaces t = t.
Proof.
  induction t as [|x t IH]; [reflexivity|]. cbn [collapsed].
  rewrite collapse_spaces_cons. intros H.
  apply andb_true_iff in H as [Hx Ht]. destruct (is_space x).
  - apply andb_true_iff in Hx as [Hx Hn]. apply Ascii.eqb_eq in Hx.
    subst x. rewrite (span_nonspace t Hn), (IH Ht). reflexivity.
  - rewrite (IH Ht). reflexivity.
Qed.

Lemma collapsed_no_newline (t : pystr) :
  collapsed t = true -> ~ In newline t.
Proof.
  induction t as [|x t IH]; [intros _ []|]. cbn [collapsed]. intros H.
  apply andb_true_iff in H as [Hx Ht]. intros [->|Hin].
  - vm_compute in Hx. discriminate.
  - exact (IH Ht Hin).
Qed.

Lemma match_at_join (b a : list ascii) :
  ~ In newline a -> match_at join_re b a = None.
Proof.
  intros Hn. destruct (match_at join_re b a) as [st'|] eqn:Em; [|reflexivity].
  exfalso. apply match_at_sem in Em. unfold join_re in Em.
  apply sem_seq_inv in Em as (st1 & H1 & H2).
  inversion H1; subst. apply sem_chr_inv in H2 as (x' & Hx & Hr & _).
  simpl in Hr. apply Ascii.eqb_eq in Hx. subst x'. apply Hn. rewrite Hr.
  left. reflexivity.
Qed.

Lemma join_lines_fixed (t : pystr) : ~ In newline t -> join_lines t = t.
Proof.
  unfold join_lines, re_sub, tokens. generalize (@nil ascii) as b.
  induction t as [|x t IH]; intros b Hn.
  - rewrite scan_0, (match_at_join b [] Hn). reflexivity.
  - rewrite (scan_nomatch _ _ _ _ (match_at_join b (x :: t) Hn)).
    cbn [subst_tokens replace_all].
    destruct (Ascii.eqb x newline) eqn:Ex.
    + apply Ascii.eqb_eq in Ex. subst x. exfalso. apply Hn. left. reflexivity.
    + simpl. f_equal. apply IH. intros Hin. apply Hn. right. exact Hin.
Qed.

(** C2 (as the code has it): the text the normalizer returns has no
    newline and no white space other than single spaces, and the second
    and third steps (joining the lines, collapsing the white space) leave
    it as it is; so normalizing it again gives the same text whenever the
    first step (collapsing doubled pairs of characters) leaves it as it
    is. *)
Theorem normalizer_fixed_after_dedup (pdf_text : pystr) :
  collapsed (clean_text pdf_text) = true /\
  join_lines (clean_text pdf_text) = clean_text pdf_text /\
  collapse_spaces (clean_text pdf_text) = clean_text pdf_text /\
  (dedup (clean_text pdf_text) = clean_text pdf_text ->
   clean_text (clean_text pdf_text) = clean_text pdf_text).
Proof.
  assert (Hc : collapsed (clean_text pdf_text) = true)
    by apply collapse_spaces_collapsed.
  assert (Hj : join_lines (clean_text pdf_text) = clean_text pdf_text)
    by (apply join_lines_fixed, collapsed_no_newline, Hc).
  assert (Hs : collapse_spaces (clean_text pdf_text) = clean_text pdf_text)
    by (apply collapsed_fixed, Hc).
  repeat split; try assumption.
  intros Hd. unfold clean_text at 1. rewrite Hd, Hj, Hs. reflexivity.
Qed.

Lemma normalizer_fixed_after_dedup_witness :
  clean_text (clean_text sample_page) = clean_text sample_page.
Proof.
  apply (proj2 (proj2 (proj2 (normalizer_fixed_after_dedup sample_page)))).
  vm_compute. reflexivity.
Defined.

(** C2 as stated fails: six A's are normalized to four, and four to two. *)
Lemma normalizer_not_idempotent :
  clean_text (str "AAAAAA") = str "AAAA" /\
  clean_text (clean_text (str "AAAAAA")) = str "AA".
Proof. vm_compute. auto. Qed.

(** ** Character classes *)

Lemma all_chars_In (x : ascii) : In x all_chars.
Proof.
  unfold all_chars. apply in_map_iff. exists (nat_of_ascii x).
  split; [apply ascii_nat_embedding|].
  apply in_seq. pose proof (nat_ascii_bounded x). lia.
Qed.

Lemma for_all_chars (P : ascii -> bool) :
  forallb P all_chars = true -> forall x, P x = true.
Proof. intros H x. rewrite forallb_forall in H. apply H, all_chars_In. Qed.

Lemma space_not_digit (x : ascii) : is_space x = true -> is_digit x = false.
Proof.
  intros H.
  pose proof (for_all_chars (fun x => negb (is_space x && is_digit x))
                ltac:(vm_compute; reflexivity) x) as F.
  simpl in F. rewrite H in F. destruct (is_digit x); [discriminate | reflexivity].
Qed.

Lemma meridiem_not_space (x : ascii) :
  one_of "a|pAP" x = true -> is_space x = false.
Proof.
  intros H.
  pose proof (for_all_chars (fun x => negb (one_of "a|pAP" x && is_space x))
                ltac:(vm_compute; reflexivity) x) as F.
  simpl in F. rewrite H in F. destruct (is_space x); [discriminate | reflexivity].
Qed.

Lemma colon_not_digit (x : ascii) : one_of ":" x = true -> is_digit x = false.
Proof.
  intros H.
  pose proof (for_all_chars (fun x => negb (one_of ":" x && is_digit x))
                ltac:(vm_compute; reflexivity) x) as F.
  simpl in F. rewrite H in F. destruct (is_digit x); [discriminate | reflexivity].
Qed.

Lemma one_of_colon (x : ascii) : one_of ":" x = true -> x = ":".
Proof.
  unfold one_of. simpl. rewrite orb_false_r. apply Ascii.eqb_eq.
Qed.

(** A run of a class followed by a character outside it is cut in one
    way only. *)
Lemma run_unique (c : ascii -> bool) (u1 : pystr) :
  forall u2 x1 x2 v1 v2,
    forallb c u1 = true -> forallb c u2 = true ->
    c x1 = false -> c x2 = false ->
    u1 ++ x1 :: v1 = u2 ++ x2 :: v2 ->
    u1 = u2 /\ x1 = x2 /\ v1 = v2.
Proof.
  induction u1 as [|y u1 IH]; intros [|z u2] x1 x2 v1 v2 H1 H2 F1 F2 E;
    simpl in *.
  - injection E as -> ->. auto.
  - injection E as -> _. apply andb_true_iff in H2 as [H2 _]. congruence.
  - injection E as -> _. apply andb_true_iff in H1 as [H1 _]. congruence.
  - injection E as -> E.
    apply andb_true_iff in H1 as [_ H1]. apply andb_true_iff in H2 as [_ H2].
    destruct (IH _ _ _ _ _ H1 H2 F1 F2 E) as (-> & -> & ->). auto.
Qed.

(** ** Clock times and time pairs (lines 75-81) *)

Lemma time_re_sound (st st' : mstate) :
  sem time_re st st' ->
  exists w, time_shape w /\ rest st = w ++ rest st' /\
            seen st' = rev w ++ seen st /\ grp st' = grp st.
Proof.
  unfold time_re. intros H. sem_inv. subst.
  repeat match goal with H : rest _ = _ |- _ => rewrite H; clear H end.
  repeat match goal with H : seen _ = _ |- _ => rewrite H; clear H end.
  repeat match goal with H : grp _ = _ |- _ => rewrite H; clear H end.
  match goal with
  | |- exists w, _ /\ ?h ++ ?c :: ?mm ++ ?s ++ ?x :: ?y :: ?r = w ++ ?r /\ _ =>
      exists (h ++ [c] ++ mm ++ s ++ [x; y])
  end.
  split; [|split; [|split]].
  - unfold time_shape. do 5 eexists.
    match goal with H : one_of ":" _ = true |- _ =>
      apply one_of_colon in H; rewrite H end.
    split; [reflexivity|]. unfold within in *. intuition lia.
  - rewrite <- ?app_assoc. simpl. rewrite <- ?app_assoc. reflexivity.
  - rewrite !rev_app_distr. simpl. rewrite <- ?app_assoc. reflexivity.
  - reflexivity.
Qed.

Lemma time_re_complete (w r b : pystr) (g : list (nat * pystr)) :
  time_shape w ->
  sem time_re (MState b (w ++ r) g) (MState (rev w ++ b) r g).
Proof.
  intros (h & mm & s & x & y & -> & [Hh Lh] & [Hm Lm] & Hs & Hx & Hy).
  replace (rev (h ++ [":"] ++ mm ++ s ++ [x; y]) ++ b)
    with (y :: x :: rev s ++ rev mm ++ ":" :: rev h ++ b)
    by (rewrite !rev_app_distr; simpl; rewrite <- ?app_assoc; reflexivity).
  rewrite <- ?app_assoc. simpl. rewrite <- ?app_assoc. unfold time_re.
  eapply sem_seq; [apply sem_rep; simpl; auto; lia|].
  eapply sem_seq; [apply sem_chr; reflexivity|].
  eapply sem_seq; [apply sem_rep; simpl; auto; lia|].
  eapply sem_seq; [apply sem_rep; simpl; auto; lia|].
  eapply sem_seq; [apply sem_chr; exact Hx|].
  apply sem_chr. exact Hy.
Qed.

(** At a given place at most one clock time starts. *)
Lemma time_shape_unique (w1 w2 r1 r2 : pystr) :
  time_shape w1 -> time_shape w2 -> w1 ++ r1 = w2 ++ r2 ->
  w1 = w2 /\ r1 = r2.
Proof.
  intros (h1 & m1 & s1 & x1 & y1 & -> & [Hh1 _] & [Hm1 L1] & Hs1 & Hx1 & _)
         (h2 & m2 & s2 & x2 & y2 & -> & [Hh2 _] & [Hm2 L2] & Hs2 & Hx2 & _) E.
  rewrite <- ?app_assoc in E. simpl in E.
  apply run_unique with (c := is_digit) in E as (-> & _ & E);
    try assumption; try reflexivity.
  rewrite <- ?app_assoc in E.
  apply app_inj_1 in E as [-> E]; [|congruence].
  simpl in E.
  apply run_unique with (c := is_space) in E as (-> & -> & E);
    try assumption; try (apply meridiem_not_space; assumption).
  injection E as -> ->. auto.
Qed.

Lemma time_shape_nonempty (w : pystr) : time_shape w -> w <> [].
Proof.
  intros (h & mm & s & x & y & -> & [_ Lh] & _) E.
  destruct h; [simpl in Lh; lia | discriminate].
Qed.

Lemma match_at_time (w r b : pystr) :
  time_shape w ->
  match_at time_re b (w ++ r) = Some (MState (rev w ++ b) r []).
Proof.
  intros Hw.
  destruct (sem_match_at _ _ _ _ (time_re_complete w r b [] Hw)) as [st'' Hm].
  rewrite Hm. f_equal.
  apply match_at_sem, time_re_sound in Hm as (w' & Hw' & E & Hs & Hg).
  destruct st'' as [b'' a'' g'']. simpl in E, Hs, Hg.
  destruct (time_shape_unique _ _ _ _ Hw Hw' E) as [E1 E2].
  subst. reflexivity.
Qed.

Lemma no_time_match (s b : pystr) (g : list (nat * pystr)) :
  no_time_at s -> ends time_re (MState b s g) = [].
Proof.
  intros Hn. destruct (ends time_re (MState b s g)) as [|st' l] eqn:E;
    [reflexivity|]. exfalso.
  assert (Hin : In st' (ends time_re (MState b s g)))
    by (rewrite E; left; reflexivity).
  apply ends_sound, time_re_sound in Hin as (w & Hw & Es & _).
  exact (Hn w (rest st') Es Hw).
Qed.

Lemma match_time_none (s : pystr) :
  (forall b g, ends time_re (MState b s g) = []) -> no_time_at s.
Proof.
  intros H w r -> Hw.
  pose proof (ends_complete _ _ _ (time_re_complete w r [] [] Hw)) as Hin.
  rewrite H in Hin. destruct Hin.
Qed.

Lemma ends_time_same (st st1 st2 : mstate) :
  In st1 (ends time_re st) -> In st2 (ends time_re st) -> st1 = st2.
Proof.
  intros H1 H2.
  apply ends_sound, time_re_sound in H1 as (w1 & Hw1 & E1 & S1 & G1).
  apply ends_sound, time_re_sound in H2 as (w2 & Hw2 & E2 & S2 & G2).
  destruct st1 as [b1 a1 g1], st2 as [b2 a2 g2]. simpl in *.
  rewrite E1 in E2.
  destruct (time_shape_unique _ _ _ _ Hw1 Hw2 E2) as [-> ->].
  subst. reflexivity.
Qed.

(** The first result of a search that goes on from positions that are
    all the same is the first result from that position. *)
Lemma head_flat_map_same {A B : Type} (f : A -> list B) (l : list A)
    (x : A) (y : B) :
  (forall x', In x' l -> x' = x) ->
  head (flat_map f l) = Some y -> In x l /\ head (f x) = Some y.
Proof.
  intros Hall. induction l as [|x0 l IH]; [discriminate|].
  assert (E0 : x0 = x) by (apply Hall; left; reflexivity). subst x0.
  simpl. rewrite head_app_nonnil. destruct (head (f x)) as [y'|] eqn:E.
  - intros [= ->]. split; [left|]; reflexivity.
  - intros H. destruct IH as [_ IH]; [|exact H|congruence].
    intros x' Hin. apply Hall. right. exact Hin.
Qed.

(** The lazy [.*?] stops at the first place where a clock time starts. *)
Lemma lazy_gap_head (g : list (nat * pystr)) (r1 : list ascii) :
  forall b1 st',
    head (flat_map (ends time_re)
            (map (fun ba => MState (fst ba) (snd ba) g)
               (rep false dot 0 None b1 r1))) = Some st' ->
    exists gap t2,
      r1 = gap ++ t2 ++ rest st' /\ time_shape t2 /\
      (forall g1 g2, gap = g1 ++ g2 -> g2 <> [] ->
                     no_time_at (g2 ++ t2 ++ rest st')).
Proof.
  induction r1 as [|x r1 IH]; intros b1 st' H.
  - cbn [rep app map flat_map fst snd] in H. rewrite app_nil_r in H.
    apply head_In, ends_sound, time_re_sound in H as (w & Hw & E & _).
    simpl in E. exists [], w. split; [exact E|]. split; [exact Hw|].
    intros g1 g2 Eg Hg. symmetry in Eg. apply app_eq_nil in Eg as [_ ->].
    congruence.
  - cbn [rep app map flat_map fst snd] in H. rewrite head_app_nonnil in H.
    destruct (head (ends time_re (MState b1 (x :: r1) g))) as [st0|] eqn:E0.
    + injection H as ->.
      apply head_In, ends_sound, time_re_sound in E0 as (w & Hw & E & _).
      simpl in E. exists [], w. split; [exact E|]. split; [exact Hw|].
      intros g1 g2 Eg Hg. symmetry in Eg. apply app_eq_nil in Eg as [_ ->].
      congruence.
    + apply head_None_nil in E0.
      destruct (dot x && room None) eqn:Ed; [|discriminate].
      apply IH in H as (gap & t2 & -> & Ht2 & Hmin).
      exists (x :: gap), t2. split; [reflexivity|]. split; [exact Ht2|].
      intros g1 g2 Eg Hg. destruct g1 as [|y g1].
      * simpl in Eg. subst g2. intros w r Ew Hw.
        pose proof (ends_complete _ _ _
                      (time_re_complete w r b1 g Hw)) as Hin.
        rewrite <- Ew in Hin. cbn [app] in Hin. rewrite E0 in Hin. destruct Hin.
      * injection Eg as -> ->. apply (Hmin g1 g2 eq_refl Hg).
Qed.

(** The match of [time_pair_re]: a clock time, a gap in which no clock
    time starts, and a clock time. *)
Lemma time_pair_match (b a : list ascii) (st' : mstate) :
  match_at time_pair_re b a = Some st' ->
  exists t1 gap t2,
    a = t1 ++ gap ++ t2 ++ rest st' /\
    time_shape t1 /\ time_shape t2 /\
    (forall g1 g2, gap = g1 ++ g2 -> g2 <> [] ->
                   no_time_at (g2 ++ t2 ++ rest st')).
Proof.
  unfold match_at, time_pair_re. cbn [ends]. intros H.
  destruct (ends time_re (MState b a [])) as [|st1 l] eqn:E1; [discriminate|].
  apply head_flat_map_same with (x := st1) in H as [Hin H].
  - rewrite <- E1 in Hin.
    apply ends_sound, time_re_sound in Hin as (t1 & Ht1 & Ea & _ & Hg).
    simpl in Ea, Hg. cbn [ends] in H. rewrite Hg in H.
    apply lazy_gap_head in H as (gap & t2 & Er & Ht2 & Hmin).
    exists t1, gap, t2. rewrite Ea, Er. auto.
  - intros x' Hx'. rewrite <- E1 in Hx'. apply ends_time_same with (1 := Hx').
    rewrite E1. left. reflexivity.
Qed.

Lemma scan_time_gap (t2 post gap : pystr) :
  forall b,
    (forall g1 g2, gap = g1 ++ g2 -> g2 <> [] ->
                   no_time_at (g2 ++ t2 ++ post)) ->
    scan time_re b (gap ++ t2) 0
    = map TChar gap ++ scan time_re (rev gap ++ b) t2 0.
Proof.
  induction gap as [|x gap IH]; intros b Hmin; [reflexivity|].
  assert (Hn : match_at time_re b (x :: gap ++ t2) = None).
  { destruct (match_at time_re b (x :: gap ++ t2)) as [st'|] eqn:Em;
      [|reflexivity]. exfalso.
    apply match_at_sem, time_re_sound in Em as (w & Hw & E & _).
    simpl in E.
    apply (Hmin [] (x :: gap) eq_refl ltac:(discriminate) w (rest st' ++ post));
      [|exact Hw].
    rewrite (app_assoc w), <- E. simpl. rewrite <- app_assoc. reflexivity. }
  cbn [app]. rewrite (scan_nomatch _ _ _ _ Hn). cbn [map app]. f_equal.
  rewrite IH.
  - simpl. rewrite <- app_assoc. reflexivity.
  - intros g1 g2 Eg Hg. apply (Hmin (x :: g1) g2); [|exact Hg].
    rewrite Eg. reflexivity.
Qed.

Lemma match_at_time_end (b : pystr) : match_at time_re b [] = None.
Proof.
  destruct (match_at time_re b []) as [st'|] eqn:Em; [|reflexivity].
  exfalso. apply match_at_sem, time_re_sound in Em as (w & Hw & E & _).
  simpl in E. symmetry in E. apply app_eq_nil in E as [-> _].
  exact (time_shape_nonempty [] Hw eq_refl).
Qed.

Lemma findall_time_pair (t1 gap t2 post : pystr) :
  time_shape t1 -> time_shape t2 ->
  (forall g1 g2, gap = g1 ++ g2 -> g2 <> [] ->
                 no_time_at (g2 ++ t2 ++ post)) ->
  re_findall time_re (t1 ++ gap ++ t2) = [t1; t2].
Proof.
  intros Ht1 Ht2 Hmin. unfold re_findall, tokens.
  rewrite (scan_match _ _ _ t1 _ (match_at_time t1 (gap ++ t2) [] Ht1) eq_refl
             (time_shape_nonempty t1 Ht1)).
  cbn [rest grp]. rewrite (scan_time_gap t2 post gap _ Hmin).
  pose proof (match_at_time t2 [] (rev gap ++ rev t1 ++ []) Ht2) as M2.
  rewrite (app_nil_r t2) in M2.
  rewrite (scan_match _ _ _ t2 _ M2 (eq_sym (app_nil_r t2))
             (time_shape_nonempty t2 Ht2)).
  cbn [rest grp]. rewrite scan_0, match_at_time_end.
  cbn [matches_of map fst]. rewrite matches_of_texts, omap_app. simpl.
  assert (Hg : omap (fun t => match t with
                              | TMatch w _ => Some w
                              | TChar _ => None
                              end) (map TChar gap) = []).
  { clear. induction gap as [|x gap IH]; [reflexivity | exact IH]. }
  rewrite Hg. reflexivity.
Qed.

(** C9: every tuple of times holds exactly two strings, each of the form
    of a clock time (one or two digits, colon, two digits, white space if
    any, am/pm marker), so the elements 0 and 1 of the tuple exist. *)
Theorem time_tuples_hold_two (text : pystr) (tup : list pystr) :
  In tup (time_tuples_of text) ->
  exists start_time end_time,
    tup = [start_time; end_time] /\
    tup !! 0%nat = Some start_time /\ tup !! 1%nat = Some end_time /\
    time_shape start_time /\ time_shape end_time.
Proof.
  unfold time_tuples_of, time_strs_of. intros H.
  apply in_map_iff in H as (ts & <- & H).
  apply findall_sound in H as (pre & post & st' & _ & Hm & Hr).
  apply time_pair_match in Hm as (t1 & gap & t2 & E & Ht1 & Ht2 & Hmin).
  rewrite Hr in E, Hmin.
  replace (t1 ++ gap ++ t2 ++ post) with ((t1 ++ gap ++ t2) ++ post) in E
    by (rewrite <- ?app_assoc; reflexivity).
  apply app_inv_tail in E. subst ts.
  exists t1, t2. rewrite (findall_time_pair t1 gap t2 post Ht1 Ht2 Hmin).
  auto.
Qed.

Lemma time_tuples_hold_two_witness :
  exists start_time end_time,
    [str "9:00 am"; str "10:00AM"] = [start_time; end_time] /\
    time_shape start_time /\ time_shape end_time.
Proof.
  destruct (time_tuples_hold_two (str "June 9 9:00 am to 10:00AM, DESC")
              [str "9:00 am"; str "10:00AM"])
    as (s & e & E & _ & _ & Hs & He).
  - vm_compute. left. reflexivity.
  - exists s, e. auto.
Defined.

(** ** The directives of the format *)

Lemma sem_grp_same (r : regex) (st st' : mstate) :
  sem r st st' -> nogroup r = true -> grp st' = grp st.
Proof.
  induction 1; simpl; intros Hn; try reflexivity; try discriminate.
  - apply andb_true_iff in Hn as [H1 H2].
    rewrite (IHsem2 H2), (IHsem1 H1). reflexivity.
  - apply andb_true_iff in Hn as [H1 _]. auto.
  - apply andb_true_iff in Hn as [_ H2]. auto.
Qed.

Lemma sem_group_word (n : nat) (r : regex) (st st' : mstate) :
  sem (Group n r) st st' ->
  exists st1 w, sem r st st1 /\ rest st = w ++ rest st1 /\
                rest st' = rest st1 /\ grp st' = (n, w) :: grp st1.
Proof.
  intros H. apply sem_group_inv in H as (st1 & H & _ & Hr & Hg).
  destruct (sem_moves _ _ _ H) as (w & Ew & _).
  exists st1, w. rewrite Hg, Ew, length_app_sub, take_app_length. auto.
Qed.

Lemma lit_ci_sem (s : pystr) :
  forall st st', sem (lit_ci s) st st' ->
                 exists w, rest st = w ++ rest st' /\ map lower w = s.
Proof.
  induction s as [|c s IH]; intros st st' H; simpl in H.
  - apply sem_eps_inv in H. subst. exists []. auto.
  - apply sem_seq_inv in H as (st1 & H1 & H2).
    apply sem_chr_inv in H1 as (x & Hx & Hr & _).
    apply IH in H2 as (w & Hw & Hl). apply Ascii.eqb_eq in Hx.
    exists (x :: w). rewrite Hr, Hw. simpl. rewrite Hx, Hl. auto.
Qed.

Lemma forallb_map_lower (w : pystr) :
  forallb is_lower (map lower w) = forallb (fun x => is_lower (lower x)) w.
Proof. induction w as [|x w IH]; simpl; [|rewrite IH]; reflexivity. Qed.

Lemma dir_B_sem (st st' : mstate) :
  sem dir_B st st' ->
  exists w, rest st = w ++ rest st' /\ forallb letter w = true.
Proof.
  unfold dir_B. cbn [alts map]. intros H.
  repeat (apply sem_alt_inv in H as [H|H]);
    apply lit_ci_sem in H as (w & Hw & Hl); exists w; (split; [exact Hw|]);
    unfold letter; rewrite <- forallb_map_lower, Hl; vm_compute; reflexivity.
Qed.

Lemma letter_plain (x : ascii) :
  letter x = true -> is_space x = false /\ is_digit x = false.
Proof.
  intros H.
  pose proof (for_all_chars
                (fun x => negb (letter x) || (negb (is_space x) && negb (is_digit x)))
                ltac:(vm_compute; reflexivity) x) as F.
  simpl in F. rewrite H in F. simpl in F.
  destruct (is_space x), (is_digit x); try discriminate. auto.
Qed.

Lemma range_digit (lo hi x : ascii) :
  (code "0" <= code lo)%nat -> (code hi <= code "9")%nat ->
  in_range lo hi x = true -> is_digit x = true.
Proof.
  unfold is_digit, in_range. intros H1 H2 H.
  apply andb_true_iff in H as [Ha Hb].
  apply Nat.leb_le in Ha, Hb. apply andb_true_iff.
  split; apply Nat.leb_le; lia.
Qed.

Lemma one_of_digit (s : string) (x : ascii) :
  forallb is_digit (str s) = true -> one_of s x = true -> is_digit x = true.
Proof.
  unfold one_of. intros Hs Hx. apply existsb_exists in Hx as (y & Hy & E).
  apply Ascii.eqb_eq in E. subst y. rewrite forallb_forall in Hs. auto.
Qed.

Lemma one_of_space (x : ascii) : one_of " " x = true -> x = " ".
Proof. unfold one_of. simpl. rewrite orb_false_r. apply Ascii.eqb_eq. Qed.

(** The day: one or two digits, or a space and a digit. *)
Lemma dir_d_sem (st st' : mstate) :
  sem dir_d st st' ->
  exists w, rest st = w ++ rest st' /\
            ((forallb is_digit w = true /\ 1 <= length w <= 2) \/
             (exists x, w = [" "; x] /\ is_digit x = true)).
Proof.
  unfold dir_d. cbn [alts]. intros H.
  repeat (apply sem_alt_inv in H as [H|H]); sem_inv;
    repeat match goal with
    | H : in_range _ _ _ = true |- _ =>
        apply range_digit in H; [|vm_compute; lia|vm_compute; lia]
    | H : one_of " " _ = true |- _ => apply one_of_space in H; subst
    | H : one_of _ _ = true |- _ =>
        apply one_of_digit in H; [|vm_compute; reflexivity]
    end;
    repeat match goal with H : rest _ = _ |- _ => rewrite H; clear H end.
  - match goal with |- context [?x :: ?y :: rest st'] =>
      exists [x; y] end. split; [reflexivity|]. left. simpl.
    repeat match goal with H : is_digit _ = true |- _ => rewrite H; clear H end.
    split; [reflexivity | lia].
  - match goal with |- context [?x :: ?y :: rest st'] =>
      exists [x; y] end. split; [reflexivity|]. left. simpl.
    repeat match goal with H : is_digit _ = true |- _ => rewrite H; clear H end.
    split; [reflexivity | lia].
  - match goal with |- context [?x :: ?y :: rest st'] =>
      exists [x; y] end. split; [reflexivity|]. left. simpl.
    repeat match goal with H : is_digit _ = true |- _ => rewrite H; clear H end.
    split; [reflexivity | lia].
  - match goal with |- context [?x :: rest st'] =>
      exists [x] end. split; [reflexivity|]. left. simpl.
    repeat match goal with H : is_digit _ = true |- _ => rewrite H; clear H end.
    split; [reflexivity | lia].
  - match goal with |- context [" " :: ?y :: rest st'] =>
      exists [" "; y] end. split; [reflexivity|]. right. eauto.
Qed.

Lemma dir_Y_sem (st st' : mstate) :
  sem dir_Y st st' ->
  exists w, rest st = w ++ rest st' /\
            forallb is_digit w = true /\ length w = 4.
Proof.
  unfold dir_Y. intros H. sem_inv.
  repeat match goal with H : rest _ = _ |- _ => rewrite H; clear H end.
  match goal with |- context [?a :: ?b :: ?c :: ?d :: rest st'] =>
    exists [a; b; c; d] end.
  split; [reflexivity|]. simpl.
  repeat match goal with H : is_digit _ = true |- _ => rewrite H; clear H end.
  auto.
Qed.

Lemma ws_sem (st st' : mstate) :
  sem ws_re st st' ->
  exists x w, rest st = (x :: w) ++ rest st' /\ is_space x = true /\
              forallb is_space w = true /\ grp st' = grp st.
Proof.
  unfold ws_re. intros H. apply sem_rep_inv in H as (w & (Hw & Hl & _) & E & _ & G).
  destruct w as [|x w]; [simpl in Hl; lia|]. simpl in Hw.
  apply andb_true_iff in Hw as [Hx Hw]. exists x, w. auto.
Qed.

(** ** The date a time string cannot change *)

Lemma forallb_weaken (p q : ascii -> bool) (l : pystr) :
  (forall x, p x = true -> q x = true) ->
  forallb p l = true -> forallb q l = true.
Proof.
  intros Hpq. induction l as [|x l IH]; [reflexivity|]. simpl.
  intros H. apply andb_true_iff in H as [Hx Hl].
  rewrite (Hpq x Hx), (IH Hl). reflexivity.
Qed.

Lemma digit_not_space (x : ascii) : is_digit x = true -> is_space x = false.
Proof.
  intros H. destruct (is_space x) eqn:E; [|reflexivity].
  apply space_not_digit in E. congruence.
Qed.

Lemma letter_nondigit (x : ascii) : letter x = true -> nondigit x = true.
Proof.
  intros H. apply letter_plain in H as [_ H]. unfold nondigit.
  rewrite H. reflexivity.
Qed.

Lemma letter_nonspace (x : ascii) : letter x = true -> nonspace x = true.
Proof.
  intros H. apply letter_plain in H as [H _]. unfold nonspace.
  rewrite H. reflexivity.
Qed.

Lemma space_nondigit (x : ascii) : is_space x = true -> nondigit x = true.
Proof.
  intros H. apply space_not_digit in H. unfold nondigit.
  rewrite H. reflexivity.
Qed.

(** The word of the day directive: white space, if any, then digits; it
    has the value of its digits. *)
Lemma day_word (w : pystr) :
  (forallb is_digit w = true /\ 1 <= length w <= 2) \/
  (exists x, w = [" "; x] /\ is_digit x = true) ->
  exists p dg,
    w = p ++ dg /\ forallb is_space p = true /\
    forallb is_digit dg = true /\ dg <> [] /\ int_of w = int_of dg.
Proof.
  intros [[Hw Hl] | (x & -> & Hx)].
  - exists [], w. split; [reflexivity|]. split; [reflexivity|].
    split; [exact Hw|]. split; [|reflexivity].
    destruct w; [simpl in Hl; lia | discriminate].
  - exists [" "], [x]. split; [reflexivity|]. split; [reflexivity|].
    split; [simpl; rewrite Hx; reflexivity|]. split; [discriminate|].
    unfold int_of, py_int, strip. simpl.
    rewrite (digit_not_space x Hx). simpl.
    rewrite (digit_not_space x Hx). reflexivity.
Qed.

(** What the date part of the format matches, and the groups it sets. *)
Lemma date_part_sem (st mid : mstate) :
  sem date_part_re st mid ->
  exists wB s1 ws1 wd s2 ws2 wY,
    rest st = wB ++ (s1 :: ws1) ++ wd ++ (s2 :: ws2) ++ wY ++ rest mid /\
    forallb letter wB = true /\
    (is_space s1 = true /\ forallb is_space ws1 = true) /\
    ((forallb is_digit wd = true /\ 1 <= length wd <= 2) \/
     (exists x, wd = [" "; x] /\ is_digit x = true)) /\
    (is_space s2 = true /\ forallb is_space ws2 = true) /\
    (forallb is_digit wY = true /\ length wY = 4) /\
    grp mid = (3, wY) :: (2, wd) :: (1, wB) :: grp st.
Proof.
  unfold date_part_re. intros H.
  apply sem_seq_inv in H as (st1 & HB & H).
  apply sem_seq_inv in H as (st2 & Hs1 & H).
  apply sem_seq_inv in H as (st3 & Hd & H).
  apply sem_seq_inv in H as (st4 & Hs2 & HY).
  apply sem_group_word in HB as (stB & wB & HB & EB & RB & GB).
  pose proof (sem_grp_same _ _ _ HB eq_refl) as GB'.
  apply dir_B_sem in HB as (wB' & EB' & LB).
  rewrite EB in EB'. apply app_inv_tail in EB'. subst wB'.
  apply ws_sem in Hs1 as (s1 & ws1 & E1 & Hs1 & Hws1 & G1).
  apply sem_group_word in Hd as (std & wd & Hd & Ed & Rd & Gd).
  pose proof (sem_grp_same _ _ _ Hd eq_refl) as Gd'.
  apply dir_d_sem in Hd as (wd' & Ed' & Ld).
  rewrite Ed in Ed'. apply app_inv_tail in Ed'. subst wd'.
  apply ws_sem in Hs2 as (s2 & ws2 & E2 & Hs2 & Hws2 & G2).
  apply sem_group_word in HY as (stY & wY & HY & EY & RY & GY).
  pose proof (sem_grp_same _ _ _ HY eq_refl) as GY'.
  apply dir_Y_sem in HY as (wY' & EY' & LY).
  rewrite EY in EY'. apply app_inv_tail in EY'. subst wY'.
  exists wB, s1, ws1, wd, s2, ws2, wY.
  split; [|split; [exact LB|split; [auto|split; [exact Ld|split; [auto|split; [exact LY|]]]]]].
  - rewrite EB, <- RB, E1, Ed, <- Rd, E2, EY, <- RY. reflexivity.
  - rewrite GY, GY', G2, Gd, Gd', G1, GB, GB'. reflexivity.
Qed.

(** The time part starts with white space and leaves the groups of the
    date as they are. *)
Lemma time_part_sem (mid found : mstate) :
  sem time_part_re mid found ->
  (exists x r, rest mid = x :: r /\ is_space x = true) /\
  exists wI wM wp, grp found = (6, wp) :: (5, wM) :: (4, wI) :: grp mid.
Proof.
  unfold time_part_re. intros H.
  apply sem_seq_inv in H as (st1 & Hs1 & H).
  apply sem_seq_inv in H as (st2 & HI & H).
  apply sem_seq_inv in H as (st3 & Hc & H).
  apply sem_seq_inv in H as (st4 & HM & H).
  apply sem_seq_inv in H as (st5 & Hs2 & Hp).
  apply ws_sem in Hs1 as (s1 & ws1 & E1 & Hs1 & _ & G1).
  apply sem_group_word in HI as (stI & wI & HI & _ & _ & GI).
  pose proof (sem_grp_same _ _ _ HI eq_refl) as GI'.
  apply sem_chr_inv in Hc as (c & _ & _ & _ & Gc).
  apply sem_group_word in HM as (stM & wM & HM & _ & _ & GM).
  pose proof (sem_grp_same _ _ _ HM eq_refl) as GM'.
  apply ws_sem in Hs2 as (s2 & ws2 & _ & _ & _ & G2).
  apply sem_group_word in Hp as (stp & wp & Hp & _ & _ & Gp).
  pose proof (sem_grp_same _ _ _ Hp eq_refl) as Gp'.
  split; [exists s1, (ws1 ++ rest st1); auto|].
  exists wI, wM, wp.
  rewrite Gp, Gp', G2, GM, GM', Gc, GI, GI', G1. reflexivity.
Qed.

Lemma strptime_match_groups (u dd y t b : pystr) (found : mstate) :
  forallb nondigit u = true -> forallb is_digit dd = true -> dd <> [] ->
  forallb is_digit y = true -> length y = 4 ->
  sem strptime_re (MState b (format3 (u ++ dd) y t) []) found ->
  exists wB wd ws,
    group_text 1 (grp found) = wB /\ group_text 2 (grp found) = wd /\
    group_text 3 (grp found) = y /\ int_of wd = int_of dd /\
    u = wB ++ ws /\ forallb letter wB = true /\
    exists x ws', ws = x :: ws' /\ is_space x = true.
Proof.
  intros Hu Hdd Hne Hy Ly H. unfold strptime_re in H.
  apply sem_seq_inv in H as (mid & Hd & Ht).
  apply date_part_sem in Hd
    as (wB & s1 & ws1 & wd & s2 & ws2 & wY & E & LB & [Hs1 Hws1] & Ld
        & [Hs2 Hws2] & [HY LY] & G).
  apply time_part_sem in Ht as [_ (wI & wM & wp & Gf)].
  apply day_word in Ld as (p & dg & -> & Hp & Hdg & Hgne & Hint).
  simpl in E, G. unfold format3, str in E. simpl in E.
  destruct dd as [|d0 dd']; [congruence|].
  destruct dg as [|g0 dg']; [congruence|].
  simpl in Hdd, Hdg.
  apply andb_true_iff in Hdd as [Hd0 Hdd'].
  apply andb_true_iff in Hdg as [Hg0 Hdg'].
  assert (E1 : u ++ d0 :: (dd' ++ " " :: y ++ " " :: t)
               = (wB ++ (s1 :: ws1) ++ p) ++ g0 :: (dg' ++ (s2 :: ws2) ++ wY ++ rest mid)).
  { repeat (rewrite <- app_assoc in E; cbn [app] in E).
    repeat (rewrite <- app_assoc; cbn [app]). exact E. }
  apply run_unique with (c := nondigit) in E1 as (Eu & <- & E2);
    [|exact Hu| |unfold nondigit; rewrite Hd0; reflexivity
     |unfold nondigit; rewrite Hg0; reflexivity].
  2:{ rewrite !forallb_app. simpl.
      rewrite (forallb_weaken _ _ _ letter_nondigit LB),
              (space_nondigit _ Hs1),
              (forallb_weaken _ _ _ space_nondigit Hws1),
              (forallb_weaken _ _ _ space_nondigit Hp). reflexivity. }
  simpl in E2.
  apply run_unique with (c := is_digit) in E2 as (<- & <- & E3);
    [|exact Hdd'|exact Hdg'|reflexivity|apply space_not_digit; exact Hs2].
  destruct y as [|y0 y']; [discriminate|].
  destruct wY as [|w0 wY']; [discriminate|].
  simpl in Hy, HY.
  apply andb_true_iff in Hy as [Hy0 Hy'].
  apply andb_true_iff in HY as [Hw0 HY'].
  change ((y0 :: y') ++ " " :: t) with ([] ++ y0 :: (y' ++ " " :: t)) in E3.
  change (ws2 ++ (w0 :: wY') ++ rest mid)
    with (ws2 ++ w0 :: (wY' ++ rest mid)) in E3.
  apply run_unique with (c := is_space) in E3 as (<- & <- & E4);
    [|reflexivity|exact Hws2|apply digit_not_space; exact Hy0
     |apply digit_not_space; exact Hw0].
  apply app_inj_1 in E4 as [<- _]; [|simpl in Ly, LY; lia].
  exists wB, (p ++ d0 :: dd'), ((s1 :: ws1) ++ p).
  rewrite Gf, G. unfold group_text. simpl.
  repeat split; try assumption; eauto.
Qed.

Lemma strptime_found (s : pystr) (dt : datetime) :
  strptime s = Ok dt ->
  exists found m,
    sem strptime_re (MState [] s []) found /\
    index_from 1 (map lower (group_text 1 (grp found))) f_month = Some m /\
    year dt = group_int 3 (grp found) /\ month dt = m /\
    day dt = group_int 2 (grp found).
Proof.
  unfold strptime. destruct (re_match strptime_re s) as [found|] eqn:Em;
    [|discriminate].
  destruct (rest found); [|discriminate].
  destruct (index_from _ _ _) as [m|] eqn:Ei; [|discriminate].
  destruct (valid_date _ _ _); [|discriminate].
  intros [= <-]. exists found, m. simpl.
  split; [apply match_at_sem; exact Em | auto].
Qed.

(** Two time strings parsed with the same date string and year give the
    same day. *)
Lemma strptime_same_day (d y t1 t2 : pystr) (dt1 dt2 : datetime) :
  dated d -> forallb is_digit y = true -> length y = 4 ->
  strptime (format3 d y t1) = Ok dt1 ->
  strptime (format3 d y t2) = Ok dt2 ->
  same_day dt1 dt2.
Proof.
  intros (u & dd & -> & Hu & Hdd & Hne) Hy Ly H1 H2.
  apply strptime_found in H1 as (f1 & m1 & S1 & I1 & Y1 & M1 & D1).
  apply strptime_found in H2 as (f2 & m2 & S2 & I2 & Y2 & M2 & D2).
  apply (strptime_match_groups u dd y t1 [] f1 Hu Hdd Hne Hy Ly) in S1
    as (wB1 & wd1 & ws1 & GB1 & Gd1 & GY1 & Hi1 & Eu1 & LB1 & x1 & ws1' & -> & Hx1).
  apply (strptime_match_groups u dd y t2 [] f2 Hu Hdd Hne Hy Ly) in S2
    as (wB2 & wd2 & ws2 & GB2 & Gd2 & GY2 & Hi2 & Eu2 & LB2 & x2 & ws2' & -> & Hx2).
  unfold same_day, group_int in *.
  rewrite Y1, Y2, D1, D2, GY1, GY2, Gd1, Gd2, Hi1, Hi2.
  split; [reflexivity|]. split; [|reflexivity].
  rewrite Eu1 in Eu2.
  apply run_unique with (c := nonspace) in Eu2 as (E & _ & _);
    [|exact (forallb_weaken _ _ _ letter_nonspace LB1)
     |exact (forallb_weaken _ _ _ letter_nonspace LB2)
     |unfold nonspace; rewrite Hx1; reflexivity
     |unfold nonspace; rewrite Hx2; reflexivity].
  rewrite GB1 in I1. rewrite GB2, <- E, I1 in I2. congruence.
Qed.

(** ** Start and end of an entry (lines 98-104) *)

Lemma date_str_shape (text m : pystr) :
  In m (date_strs_of text) -> date_shape m.
Proof.
  unfold date_strs_of. intros H.
  apply findall_sound in H as (pre & post & st' & E & Hm & Hr).
  apply match_at_sem, date_re_sound in Hm as (m' & Hshape & Hrest & _).
  simpl in Hrest. rewrite Hr in Hrest. apply app_inv_tail in Hrest.
  subst m'. exact Hshape.
Qed.

Lemma year_str_digits (text y : pystr) :
  re_search year_re text = Some y ->
  forallb is_digit y = true /\ length y = 4.
Proof.
  unfold re_search. intros H. apply head_In, findall_sound in H
    as (pre & post & st' & _ & Hm & Hr).
  apply match_at_sem in Hm. unfold year_re in Hm.
  apply sem_rep_inv in Hm as (w & (Hw & Hlo & Hhi) & E & _).
  simpl in E, Hhi. rewrite Hr in E. apply app_inv_tail in E. subst w.
  split; [exact Hw | lia].
Qed.

Lemma month_start_nondigit (x : ascii) :
  one_of "J|FMASOND" x = true -> nondigit x = true.
Proof.
  intros H.
  pose proof (for_all_chars (fun x => negb (one_of "J|FMASOND" x) || nondigit x)
                ltac:(vm_compute; reflexivity) x) as F.
  simpl in F. rewrite H in F. exact F.
Qed.

Lemma lower_or_pipe_nondigit (x : ascii) :
  lower_or_pipe x = true -> nondigit x = true.
Proof.
  intros H.
  pose proof (for_all_chars (fun x => negb (lower_or_pipe x) || nondigit x)
                ltac:(vm_compute; reflexivity) x) as F.
  simpl in F. rewrite H in F. exact F.
Qed.

Lemma lower_nondigit (x : ascii) : is_lower x = true -> nondigit x = true.
Proof.
  intros H.
  pose proof (for_all_chars (fun x => negb (is_lower x) || nondigit x)
                ltac:(vm_compute; reflexivity) x) as F.
  simpl in F. rewrite H in F. exact F.
Qed.

Lemma date_shape_dated (m : pystr) : date_shape m -> dated m.
Proof.
  intros (c0 & w1 & s1 & w2 & s2 & d & -> & Hc & [Hw1 _] & [Hs1 _]
          & [Hw2 _] & [Hs2 _] & [Hd Ld]).
  exists ([c0] ++ w1 ++ s1 ++ w2 ++ s2), d.
  split; [rewrite <- ?app_assoc; reflexivity|].
  split; [|split; [exact Hd|]].
  - rewrite !forallb_app. simpl.
    rewrite (month_start_nondigit _ Hc),
            (forallb_weaken _ _ _ lower_or_pipe_nondigit Hw1),
            (forallb_weaken _ _ _ space_nondigit Hs1),
            (forallb_weaken _ _ _ lower_nondigit Hw2),
            (forallb_weaken _ _ _ space_nondigit Hs2). reflexivity.
  - destruct d; [simpl in Ld; lia | discriminate].
Qed.

Lemma replace_first_digits (dd : pystr) :
  forallb is_digit dd = true -> replace_first " " [] dd = dd.
Proof.
  induction dd as [|x dd IH]; [reflexivity|]. simpl. intros H.
  apply andb_true_iff in H as [Hx Hdd].
  destruct (Ascii.eqb x " ") eqn:E.
  - apply Ascii.eqb_eq in E. subst x. discriminate.
  - rewrite (IH Hdd). reflexivity.
Qed.

Lemma replace_first_dated (d : pystr) :
  dated d -> dated (replace_first " " [] d).
Proof.
  intros (u & dd & -> & Hu & Hdd & Hne).
  induction u as [|x u IH].
  - exists [], dd. simpl. rewrite (replace_first_digits dd Hdd). auto.
  - simpl in Hu. apply andb_true_iff in Hu as [Hx Hu].
    cbn [app replace_first]. destruct (Ascii.eqb x " ").
    + exists u, dd. auto.
    + destruct (IH Hu) as (u' & dd' & E & Hu' & Hdd' & Hne').
      exists (x :: u'), dd'. simpl. rewrite E, Hx, Hu'. auto.
Qed.

Lemma probe_date_dated (d y d' : pystr) :
  dated d -> probe_date d y = Ok d' -> dated d'.
Proof.
  unfold probe_date. intros Hd.
  destruct (strptime _) as [dt|[| |msg|]]; intros [= <-];
    [exact Hd | apply replace_first_dated; exact Hd].
Qed.

Lemma resolve_entry_same_day (ds : list pystr) (tts : list (list pystr))
    (y : pystr) (i : nat) (en : entry) :
  (forall d, In d ds -> date_shape d) ->
  forallb is_digit y = true -> length y = 4 ->
  resolve_entry ds tts y i = Ok en ->
  same_day (start en) (end_ en).
Proof.
  intros Hds Hy Ly. unfold resolve_entry, _parse_datetime.
  destruct (ds !! i) as [d0|] eqn:Ed; [|discriminate].
  assert (Hd0 : dated d0).
  { apply date_shape_dated, Hds. apply list_elem_of_In.
    eapply list_elem_of_lookup_2. exact Ed. }
  destruct (probe_date d0 y) as [d|e] eqn:Ep; [|discriminate].
  pose proof (probe_date_dated _ _ _ Hd0 Ep) as Hd.
  destruct (tts !! i) as [tup|]; [|discriminate].
  destruct (tup !! 0%nat) as [t0|]; [|discriminate].
  destruct (tup !! 1%nat) as [t1|]; [|discriminate].
  destruct (strptime (format3 d y t0)) as [dt0|e0] eqn:E0; [|discriminate].
  destruct (strptime (format3 d y t1)) as [dt1|e1] eqn:E1; [|discriminate].
  intros [= <-]. simpl.
  exact (strptime_same_day d y t0 t1 dt0 dt1 Hd Hy Ly E0 E1).
Qed.

(** C10: every entry the Schedule Extractor appends has its start and its
    end on the same calendar day (same year, month and day); the order of
    the two is not checked: an end before the start is accepted. *)
Theorem entry_start_end_same_day :
  (forall (pdf_text : pystr) (meeting_dates : list entry),
   exists added out,
     parse_schedule_text pdf_text meeting_dates = (meeting_dates ++ added, out) /\
     forall en, In en added -> same_day (start en) (end_ en)) /\
  (exists en,
     parse_schedule_text (str "2022 440 June 9 10:00 am - 9:00 am") []
     = ([en], Ok tt) /\
     (hour (end_ en) < hour (start en))%Z).
Proof.
  split.
  - intros pdf_text md. unfold parse_schedule_text.
    set (clean := clean_text pdf_text).
    destruct (re_search year_re clean) as [y|] eqn:Ey.
    2:{ exists [], (Raise AttributeError). rewrite app_nil_r.
        split; [reflexivity | intros en []]. }
    destruct (_validate_location clean) as [[]|e].
    2:{ exists [], (Raise e). rewrite app_nil_r.
        split; [reflexivity | intros en []]. }
    destruct (negb _).
    { exists [], (Raise mismatch). rewrite app_nil_r.
      split; [reflexivity | intros en []]. }
    destruct (schedule_loop_spec (date_strs_of clean) (time_tuples_of clean) y
                (seq 0 (length (time_strs_of clean))) md)
      as (added & out & Hrun & Hall & _).
    exists added, out. split; [exact Hrun|]. intros en Hin.
    apply list_elem_of_In, list_elem_of_lookup_1 in Hin as [i Hi].
    rewrite Forall2_lookup in Hall. specialize (Hall i). rewrite Hi in Hall.
    inversion Hall as [j en' Hres Hj Hen|]; subst.
    destruct (year_str_digits clean y Ey) as [Hy Ly].
    apply (resolve_entry_same_day _ _ _ _ _ (date_str_shape clean) Hy Ly Hres).
  - eexists. split; [vm_compute; reflexivity|]. vm_compute. reflexivity.
Qed.

Lemma entry_start_end_same_day_witness :
  same_day (Datetime 2022 6 9 9 0 0) (Datetime 2022 6 9 10 0 0).
Proof.
  destruct (proj1 entry_start_end_same_day
              (str "2022 440 June 9 9:00 am - 10:00 am") [])
    as (added & out & Hrun & Hall).
  vm_compute in Hrun. injection Hrun as <- _.
  apply (Hall (Entry (Datetime 2022 6 9 9 0 0) (Datetime 2022 6 9 10 0 0))).
  left. reflexivity.
Defined.

(** ** The date strings are the matches of one pass (lines 83-85) *)

Lemma date_shape_nonempty (m : pystr) : date_shape m -> m <> [].
Proof. intros (c0 & w1 & s1 & w2 & s2 & d & -> & _). discriminate. Qed.

(** A run of digits that is not followed by a digit is cut off the text
    in one way only. *)
Lemma digit_run_unique (d1 : pystr) :
  forall d2 p1 p2,
    forallb is_digit d1 = true -> forallb is_digit d2 = true ->
    no_digit_next p1 -> no_digit_next p2 ->
    d1 ++ p1 = d2 ++ p2 -> d1 = d2.
Proof.
  induction d1 as [|x d1 IH]; intros [|y d2] p1 p2 H1 H2 N1 N2 E;
    simpl in *.
  - reflexivity.
  - subst p1. apply andb_true_iff in H2 as [H2 _]. simpl in N1. congruence.
  - subst p2. apply andb_true_iff in H1 as [H1 _]. simpl in N2. congruence.
  - injection E as -> E.
    apply andb_true_iff in H1 as [_ H1]. apply andb_true_iff in H2 as [_ H2].
    f_equal. exact (IH d2 p1 p2 H1 H2 N1 N2 E).
Qed.

(** At a position of a text at most one piece has the form of a date
    string and is not followed by a digit. *)
Lemma date_shape_unique (m1 m2 p1 p2 : pystr) :
  date_shape m1 -> date_shape m2 ->
  no_digit_next p1 -> no_digit_next p2 ->
  m1 ++ p1 = m2 ++ p2 -> m1 = m2.
Proof.
  intros H1 H2 N1 N2 E.
  apply date_shape_dated in H1 as (u1 & d1 & -> & Hu1 & Hd1 & Hne1).
  apply date_shape_dated in H2 as (u2 & d2 & -> & Hu2 & Hd2 & Hne2).
  destruct d1 as [|x1 d1]; [congruence|]. destruct d2 as [|x2 d2]; [congruence|].
  rewrite <- !app_assoc in E. cbn [app] in E.
  assert (F1 : nondigit x1 = false).
  { simpl in Hd1. apply andb_true_iff in Hd1 as [Hd1 _].
    unfold nondigit. rewrite Hd1. reflexivity. }
  assert (F2 : nondigit x2 = false).
  { simpl in Hd2. apply andb_true_iff in Hd2 as [Hd2 _].
    unfold nondigit. rewrite Hd2. reflexivity. }
  destruct (run_unique nondigit u1 u2 x1 x2 _ _ Hu1 Hu2 F1 F2 E)
    as (-> & -> & E').
  simpl in Hd1, Hd2.
  apply andb_true_iff in Hd1 as [_ Hd1]. apply andb_true_iff in Hd2 as [_ Hd2].
  rewrite (digit_run_unique d1 d2 p1 p2 Hd1 Hd2 N1 N2 E'). reflexivity.
Qed.

(** The matcher reports no match at a position exactly when no piece of
    the form of a date string, not followed by a digit, starts there. *)
Lemma match_at_date_none (b s : pystr) :
  match_at date_re b s = None <-> no_date_at s.
Proof.
  split.
  - intros Hn m post -> Hshape Hnext.
    destruct (sem_match_at _ _ _ _ (date_re_complete m post b [] Hshape Hnext))
      as [st'' Hm].
    congruence.
  - intros Hno. destruct (match_at date_re b s) as [st'|] eqn:Em; [|reflexivity].
    exfalso. apply match_at_sem, date_re_sound in Em
      as (m & Hshape & Hrest & Hnext & _). simpl in Hrest.
    exact (Hno m (rest st') Hrest Hshape Hnext).
Qed.

(** The match the matcher reports where a date string starts. *)
Lemma match_at_date (b m post : pystr) :
  date_shape m -> no_digit_next post ->
  exists st', match_at date_re b (m ++ post) = Some st' /\ rest st' = post.
Proof.
  intros Hshape Hnext.
  destruct (sem_match_at _ _ _ _ (date_re_complete m post b [] Hshape Hnext))
    as [st' Hm].
  exists st'. split; [exact Hm|].
  apply match_at_sem, date_re_sound in Hm
    as (m' & Hshape' & Hrest & Hnext' & _). simpl in Hrest.
  pose proof (date_shape_unique m m' post (rest st') Hshape Hshape'
                Hnext Hnext' Hrest) as ->.
  apply app_inv_head in Hrest. congruence.
Qed.

(** The scan passes a gap in which the matcher reports no match one
    character at a time. *)
Lemma scan_gap (r : regex) (gap : pystr) :
  forall b a,
    (forall g1 g2, gap = g1 ++ g2 -> g2 <> [] ->
                   match_at r (rev g1 ++ b) (g2 ++ a) = None) ->
    scan r b (gap ++ a) 0 = map TChar gap ++ scan r (rev gap ++ b) a 0.
Proof.
  induction gap as [|x gap IH]; intros b a Hno; [reflexivity|].
  cbn [app]. rewrite scan_nomatch.
  - cbn [map app]. f_equal. rewrite IH.
    + simpl. rewrite <- app_assoc. reflexivity.
    + intros g1 g2 Eg Hg.
      pose proof (Hno (x :: g1) g2 ltac:(rewrite Eg; reflexivity) Hg) as H.
      simpl in H. rewrite <- app_assoc in H. exact H.
  - exact (Hno [] (x :: gap) eq_refl ltac:(discriminate)).
Qed.

Lemma matches_of_app (ts1 ts2 : list token) :
  matches_of (ts1 ++ ts2) = matches_of ts1 ++ matches_of ts2.
Proof.
  induction ts1 as [|[c|w g] ts1 IH]; simpl; [reflexivity | exact IH |].
  rewrite IH. reflexivity.
Qed.

Lemma matches_of_chars (s : pystr) : matches_of (map TChar s) = [].
Proof. induction s as [|x s IH]; [reflexivity | exact IH]. Qed.

(** What the scan finds is a pass in the sense of [date_scan] ... *)
Lemma date_scan_skip (x : ascii) (a : pystr) (ms : list pystr) :
  no_date_at (x :: a) -> date_scan a ms -> date_scan (x :: a) ms.
Proof.
  intros Hx H. destruct H as [s Hno|gap m post ms Hgap Hshape Hnext Hrest].
  - apply date_scan_end. intros [|y pre] post E.
    + simpl in E. subst post. exact Hx.
    + injection E as _ E. exact (Hno pre post E).
  - change (x :: gap ++ m ++ post) with ((x :: gap) ++ m ++ post).
    apply date_scan_next; try assumption.
    intros [|y g1] g2 Eg Hg.
    + simpl in Eg. subst g2. exact Hx.
    + injection Eg as _ Eg. exact (Hgap g1 g2 Eg Hg).
Qed.

Lemma scan_date_scan (n : nat) :
  forall a b,
    length a <= n ->
    date_scan a (map fst (matches_of (scan date_re b a 0))).
Proof.
  induction n as [|n IH]; intros a b Hlen.
  - destruct a as [|x a]; [|simpl in Hlen; lia].
    rewrite scan_0.
    rewrite (proj2 (match_at_date_none b [])).
    + apply date_scan_end. intros pre post E.
      symmetry in E. apply app_eq_nil in E as [_ ->].
      intros m post E Hshape _. symmetry in E. apply app_eq_nil in E as [-> _].
      exact (date_shape_nonempty [] Hshape eq_refl).
    + intros m post E Hshape _. symmetry in E. apply app_eq_nil in E as [-> _].
      exact (date_shape_nonempty [] Hshape eq_refl).
  - destruct a as [|x a]; [apply (IH [] b); simpl; lia|].
    destruct (match_at date_re b (x :: a)) as [st'|] eqn:Em.
    + pose proof Em as Hm.
      apply match_at_sem, date_re_sound in Hm
        as (m & Hshape & Hrest & Hnext & _). simpl in Hrest.
      rewrite (scan_match _ _ _ m _ Em Hrest (date_shape_nonempty m Hshape)).
      cbn [matches_of map fst]. rewrite Hrest.
      apply (date_scan_next [] m (rest st')); try assumption.
      * intros g1 g2 Eg Hg. symmetry in Eg. apply app_eq_nil in Eg as [_ ->].
        congruence.
      * apply IH. apply (f_equal (@length ascii)) in Hrest.
        rewrite length_app in Hrest. simpl in Hrest, Hlen.
        pose proof (date_shape_nonempty m Hshape) as Hne.
        destruct m; [congruence|]. simpl in Hrest. lia.
    + rewrite (scan_nomatch _ _ _ _ Em). cbn [matches_of].
      apply date_scan_skip.
      * apply (match_at_date_none b). exact Em.
      * apply IH. simpl in Hlen. lia.
Qed.

(** ... and a pass finds what the scan finds. *)
Lemma date_scan_scan (a : pystr) (ms : list pystr) :
  date_scan a ms ->
  forall b, map fst (matches_of (scan date_re b a 0)) = ms.
Proof.
  induction 1 as [s Hno|gap m post ms Hgap Hshape Hnext Hrest IH]; intros b.
  - rewrite <- (app_nil_r s) at 1. rewrite scan_gap.
    + rewrite matches_of_app, matches_of_chars, scan_0.
      rewrite (proj2 (match_at_date_none _ [])); [reflexivity|].
      apply (Hno s []). rewrite app_nil_r. reflexivity.
    + intros g1 g2 Eg Hg. rewrite app_nil_r.
      apply match_at_date_none. exact (Hno g1 g2 Eg).
  - rewrite scan_gap.
    + destruct (match_at_date (rev gap ++ b) m post Hshape Hnext)
        as (st' & Hm & Hr).
      rewrite matches_of_app, matches_of_chars.
      rewrite (scan_match _ _ _ m _ Hm ltac:(rewrite Hr; reflexivity)
                 (date_shape_nonempty m Hshape)).
      cbn [app matches_of map fst]. rewrite Hr, IH. reflexivity.
    + intros g1 g2 Eg Hg. apply match_at_date_none. exact (Hgap g1 g2 Eg Hg).
Qed.

(** C7 (as the code has it): the date strings are exactly what one pass
    over the text from left to right finds, in text order and without
    overlap: a gap in which no piece of the form below starts, the first
    date string, a gap behind it, the second, and so on until no such
    piece starts in what is left.  Each date string has the form first
    character (one of J F M A S O N D or a pipe), up to eight lowercase
    letters or pipes, at most one white-space character, one to eight
    lowercase letters, white space, one or two digits, and is not followed
    by a digit; and none is found exactly when the text has no piece of
    that form that is not followed by a digit. *)
Theorem date_strs_have_month_day_form (text : pystr) :
  (forall ms, date_strs_of text = ms <-> date_scan text ms) /\
  (forall m,
     In m (date_strs_of text) ->
     date_shape m /\
     exists pre post, text = pre ++ m ++ post /\ no_digit_next post) /\
  (date_strs_of text = [] <->
   ~ exists pre m post,
       text = pre ++ m ++ post /\ date_shape m /\ no_digit_next post).
Proof.
  unfold date_strs_of. split; [|split].
  - intros ms. unfold re_findall, tokens. split.
    + intros <-. apply (scan_date_scan (length text)). lia.
    + intros H. apply (date_scan_scan text ms H).
  - intros m H.
    apply findall_sound in H as (pre & post & st' & E & Hm & Hr).
    apply match_at_sem, date_re_sound in Hm
      as (m' & Hshape & Hrest & Hnext & _). simpl in Hrest.
    rewrite Hr in Hrest, Hnext. apply app_inv_tail in Hrest. subst m'.
    split; [exact Hshape | eauto].
  - rewrite findall_nil. split.
    + intros H (pre & m & post & E & Hshape & Hnext).
      pose proof (date_re_complete m post (rev pre) [] Hshape Hnext) as Hs.
      apply sem_match_at in Hs as [st'' Hs].
      rewrite (H pre (m ++ post) E) in Hs. discriminate.
    + intros H pre post E.
      destruct (match_at date_re (rev pre) post) as [st'|] eqn:Em;
        [|reflexivity].
      exfalso. apply H.
      apply match_at_sem, date_re_sound in Em
        as (m & Hshape & Hrest & Hnext & _). simpl in Hrest.
      exists pre, m, (rest st'). rewrite E, Hrest. auto.
Qed.

Lemma date_strs_have_month_day_form_witness :
  date_scan (str "on J uly 14, June 9 at")
    [str "J uly 14"; str "June 9"] /\
  date_shape (str "J uly 14").
Proof.
  pose proof (date_strs_have_month_day_form (str "on J uly 14, June 9 at"))
    as (Hscan & Hshape & _).
  split.
  - apply Hscan. vm_compute. reflexivity.
  - apply Hshape. vm_compute. left. reflexivity.
Defined.

(** C7 as stated fails in both directions: "Wednesday 9" is a capitalized
    word of nine letters, white space and a day, and is not extracted;
    "J uly 14" and "Septemberrrrrrrrr 9" are extracted, and are not such a
    word followed by white space and a day. *)
Lemma capitalized_word_not_extracted :
  spec_date_shape (str "Wednesday 9") = true /\
  date_strs_of (str "Wednesday 9") = [] /\
  date_strs_of (str "J uly 14 Septemberrrrrrrrr 9")
  = [str "J uly 14"; str "Septemberrrrrrrrr 9"] /\
  spec_date_shape (str "J uly 14") = false /\
  spec_date_shape (str "Septemberrrrrrrrr 9") = false.
Proof. vm_compute. auto. Qed.

(** * Further properties *)

(** ** Entry page (lines 29-46) *)

Lemma parse_links_last (links : list anchor) :
  forall schedule_link docs_link,
    (forall a, In a links -> is_schedule a || is_minutes a = true ->
               attrib_href a <> None) ->
    parse_links links schedule_link docs_link
    = (default docs_link (last_href is_minutes links),
       Done (default schedule_link (last_href is_schedule links))).
Proof.
  induction links as [|a links IH]; intros s0 d0 Hh; [reflexivity|].
  assert (Hh' : forall a', In a' links ->
                  is_schedule a' || is_minutes a' = true ->
                  attrib_href a' <> None)
    by (intros a' Hin; apply Hh; right; exact Hin).
  pose proof (Hh a (or_introl eq_refl)) as Ha.
  cbn [parse_links last_href]. unfold is_minutes, is_schedule in *.
  destruct (contains (str "Schedule") (link_text a)) eqn:Es.
  - destruct (attrib_href a) as [h|]; [|exfalso; exact (Ha eq_refl eq_refl)].
    rewrite (IH h d0 Hh'). simpl.
    destruct (last_href _ links), (last_href _ links); reflexivity.
  - destruct (contains (str "Minutes") (link_text a)) eqn:Em.
    + destruct (attrib_href a) as [h|]; [|exfalso; exact (Ha eq_refl eq_refl)].
      rewrite (IH s0 h Hh'). simpl.
      destruct (last_href _ links), (last_href _ links); reflexivity.
    + rewrite (IH s0 d0 Hh'). simpl.
      destruct (last_href _ links), (last_href _ links); reflexivity.
Qed.

Section EntryPage.

Variable urljoin : pystr -> pystr.



End EntryPage.



(** ** Documents page (lines 106-128, 152-165) *)

Lemma link_map_loop_spec (divs : list div) :
  forall (acc lm : gmap (Z * Z) (list link)),
    link_map_loop divs acc = Ok lm ->
    forall k, lm !! k =
              match links_of_key k divs with
              | [] => acc !! k
              | l => Some (default [] (acc !! k) ++ l)
              end.
Proof.
  induction divs as [|d divs IH]; intros acc lm H k;
    cbn [link_map_loop links_of_key] in H |- *.
  - injection H as <-. reflexivity.
  - destruct (row_key d) as [k'|e]; [|discriminate].
    unfold dd_get in H.
    assert (E : exists acc1 l,
               link_map_loop divs
                 (<[k' := l ++ [Link (str "Minutes") (a_href d)]]> acc1) = Ok lm /\
               l = default [] (acc !! k') /\
               forall k0, k' <> k0 -> acc1 !! k0 = acc !! k0).
    { destruct (acc !! k') as [v|] eqn:Ek.
      - exists acc, v. auto.
      - exists (<[k' := []]> acc), []. split; [exact H|]. split; [reflexivity|].
        intros k0 Hne. apply lookup_insert_ne. exact Hne. }
    destruct E as (acc1 & l & H' & -> & Hsame).
    rewrite (IH _ _ H' k). destruct (decide (k' = k)) as [->|Hne].
    + rewrite lookup_insert_eq. simpl.
      destruct (links_of_key k divs) as [|l0 ls]; [reflexivity|].
      rewrite <- app_assoc. reflexivity.
    + rewrite lookup_insert_ne by exact Hne. rewrite (Hsame k Hne).
      reflexivity.
Qed.



Section DocumentsPage.

Variable _get_status : meeting_fields -> pystr.
Variable _get_id : meeting_fields -> pystr -> pystr.

Lemma documents_loop_fields (dates : list entry) :
  forall (lm : gmap (Z * Z) (list link)) (tm : gmap (Z * Z) title_val),
    length (documents_loop _get_status _get_id dates lm tm) = length dates /\
    forall i m,
      documents_loop _get_status _get_id dates lm tm !! i = Some m ->
      exists date,
        dates !! i = Some date /\
        m_start (fields m) = start date /\ m_end (fields m) = end_ date /\
        classification_ (fields m) = _parse_classification (title (fields m)) /\
        description (fields m) = [] /\ time_notes (fields m) = [] /\
        all_day (fields m) = false /\ m_location (fields m) = location /\
        status m = _get_status (fields m) /\
        id m = _get_id (fields m) (status m).
Proof.
  induction dates as [|d dates IH]; intros lm tm; cbn [documents_loop].
  - split; [reflexivity|]. intros i m H. destruct i; discriminate.
  - unfold assemble.
    destruct (_parse_title d tm) as [t tm1].
    destruct (dd_get [] (key_of d) lm) as [ls lm1].
    destruct (IH lm1 tm1) as [Hlen Hall].
    split; [simpl; rewrite Hlen; reflexivity|].
    intros [|i] m H.
    + injection H as <-. exists d. simpl. auto 12.
    + destruct (Hall i m H) as (date & Hd & Hrest). exists date. auto.
Qed.


End DocumentsPage.


(** ** Failures of the documents page (lines 106-128, 152-179) *)

Lemma link_map_loop_raise (pre : list div) (d : div) (post : list div)
    (e : exn) :
  forall acc,
    (forall d', In d' pre -> exists k, row_key d' = Ok k) ->
    row_key d = Raise e ->
    link_map_loop (pre ++ d :: post) acc = Raise e.
Proof.
  induction pre as [|d0 pre IH]; intros acc Hpre Hd; cbn [app link_map_loop].
  - rewrite Hd. reflexivity.
  - destruct (Hpre d0 (or_introl eq_refl)) as [k Hk]. rewrite Hk.
    destruct (dd_get [] k acc) as [l acc1]. apply IH; [|exact Hd].
    intros d' Hin. apply Hpre. right. exact Hin.
Qed.

Lemma link_map_loop_ok (divs : list div) :
  forall acc,
    (forall d, In d divs -> exists k, row_key d = Ok k) ->
    exists lm, link_map_loop divs acc = Ok lm.
Proof.
  induction divs as [|d divs IH]; intros acc Hk; cbn [link_map_loop].
  - eauto.
  - destruct (Hk d (or_introl eq_refl)) as [k Ek]. rewrite Ek.
    destruct (dd_get [] k acc) as [l acc1]. apply IH.
    intros d' Hin. apply Hk. right. exact Hin.
Qed.

Lemma title_map_loop_no_heading (divs : list div) :
  forall acc d,
    (forall d', In d' divs -> exists k, row_key d' = Ok k) ->
    In d divs -> h3_text d = None ->
    title_map_loop divs acc = Raise AttributeError.
Proof.
  induction divs as [|d0 divs IH]; intros acc d Hk Hin Hd; [destruct Hin|].
  cbn [title_map_loop].
  destruct (Hk d0 (or_introl eq_refl)) as [k Ek]. rewrite Ek.
  destruct (h3_text d0) as [h|] eqn:Eh; [|reflexivity].
  destruct Hin as [->|Hin]; [congruence|].
  apply (IH _ d); [|exact Hin|exact Hd].
  intros d' Hin'. apply Hk. right. exact Hin'.
Qed.

Lemma title_map_loop_ok (divs : list div) :
  forall acc,
    (forall d, In d divs -> exists k, row_key d = Ok k) ->
    (forall d, In d divs -> h3_text d <> None) ->
    exists tm, title_map_loop divs acc = Ok tm.
Proof.
  induction divs as [|d divs IH]; intros acc Hk Hh; cbn [title_map_loop].
  - eauto.
  - destruct (Hk d (or_introl eq_refl)) as [k Ek]. rewrite Ek.
    destruct (h3_text d) as [h|] eqn:Eh;
      [|exfalso; exact (Hh d (or_introl eq_refl) Eh)].
    apply IH; intros d' Hin; [apply Hk | apply Hh]; right; exact Hin.
Qed.

Section DocumentsFailures.

Variable _get_status : meeting_fields -> pystr.
Variable _get_id : meeting_fields -> pystr -> pystr.


End DocumentsFailures.


(** ** A whole crawl (lines 24-128) *)

Lemma parse_links_done (links : list anchor) :
  forall s0 d0 s d,
    parse_links links s0 d0 = (d, Done s) ->
    s = default s0 (last_href is_schedule links) /\
    d = default d0 (last_href is_minutes links).
Proof.
  induction links as [|a links IH]; intros s0 d0 s d H.
  - injection H as <- <-. auto.
  - cbn [parse_links last_href] in H |- *. unfold is_minutes, is_schedule in *.
    destruct (contains (str "Schedule") (link_text a)) eqn:Es.
    + destruct (attrib_href a) as [h|]; [|discriminate].
      destruct (IH _ _ _ _ H) as [-> ->]. simpl.
      destruct (last_href _ links), (last_href _ links); auto.
    + destruct (contains (str "Minutes") (link_text a)) eqn:Em.
      * destruct (attrib_href a) as [h|]; [|discriminate].
        destruct (IH _ _ _ _ H) as [-> ->]. simpl.
        destruct (last_href _ links), (last_href _ links); auto.
      * destruct (IH _ _ _ _ H) as [-> ->]. simpl.
        destruct (last_href _ links), (last_href _ links); auto.
Qed.

Lemma parse_links_failed (links : list anchor) :
  forall s0 d0 d e,
    parse_links links s0 d0 = (d, Failed e) -> e = KeyError (str "href").
Proof.
  induction links as [|a links IH]; intros s0 d0 d e H; [discriminate|].
  cbn [parse_links] in H.
  destruct (contains (str "Schedule") (link_text a)).
  - destruct (attrib_href a); [exact (IH _ _ _ _ H)|].
    injection H as _ <-. reflexivity.
  - destruct (contains (str "Minutes") (link_text a)).
    + destruct (attrib_href a); [exact (IH _ _ _ _ H)|].
      injection H as _ <-. reflexivity.
    + exact (IH _ _ _ _ H).
Qed.

Lemma validate_location_ok (text : pystr) :
  _validate_location text = Ok tt -> contains (str "440") text = true.
Proof.
  unfold _validate_location. destruct (contains (str "440") text);
    [reflexivity | discriminate].
Qed.

(** A schedule that is read to its end. *)
Lemma parse_schedule_text_ok (pdf_text : pystr) (md0 md : list entry) :
  parse_schedule_text pdf_text md0 = (md, Ok tt) ->
  let clean := clean_text pdf_text in
  exists added,
    md = md0 ++ added /\
    length added = length (date_strs_of clean) /\
    length (time_tuples_of clean) = length (date_strs_of clean) /\
    contains (str "440") clean = true /\
    forall en, In en added -> same_day (start en) (end_ en).
Proof.
  unfold parse_schedule_text. set (clean := clean_text pdf_text). cbv zeta.
  destruct (re_search year_re clean) as [y|] eqn:Ey; [|discriminate].
  destruct (_validate_location clean) as [[]|e] eqn:Ev; [|intros [=]].
  destruct (Nat.eqb (length (time_tuples_of clean))
              (length (date_strs_of clean))) eqn:En; [|intros [=]].
  apply Nat.eqb_eq in En. cbn [negb].
  destruct (schedule_loop_spec (date_strs_of clean) (time_tuples_of clean) y
              (seq 0 (length (time_strs_of clean))) md0)
    as (added & out & Hrun & Hall & Hout).
  rewrite Hrun. intros [= <- ->]. exists added. split; [reflexivity|].
  destruct Hout as [[_ Hl]|(i & e & _ & _ & [=])].
  rewrite length_seq in Hl.
  assert (Ht : length (time_tuples_of clean) = length (time_strs_of clean))
    by (unfold time_tuples_of; apply length_map).
  split; [lia|]. split; [exact En|].
  split; [exact (validate_location_ok clean Ev)|].
  intros en Hin.
  apply list_elem_of_In, list_elem_of_lookup_1 in Hin as [i Hi].
  rewrite Forall2_lookup in Hall. specialize (Hall i). rewrite Hi in Hall.
  inversion Hall as [j en' Hres Hj Hen|]; subst.
  destruct (year_str_digits clean y Ey) as [Hy Ly].
  apply (resolve_entry_same_day _ _ _ _ _ (date_str_shape clean) Hy Ly Hres).
Qed.

Section WholeCrawl.

Variable urljoin : pystr -> pystr.
Variable _get_status : meeting_fields -> pystr.
Variable _get_id : meeting_fields -> pystr -> pystr.



End WholeCrawl.



(** ** Keys of the maps (lines 152-179) *)

Lemma row_key_valid (d : div) (m y : Z) :
  row_key d = Ok (m, y) -> (1 <= m <= 12 /\ 1 <= y <= 9999)%Z.
Proof.
  unfold row_key. intros H.
  destruct (p_text d) as [t|]; [|discriminate].
  destruct (split "/" (strip t) !! 2%nat) as [s2|]; [|discriminate].
  destruct (py_int s2) as [y0|]; [|discriminate].
  destruct (split "/" (strip t) !! 0%nat) as [s0|]; [|discriminate].
  destruct (py_int s0) as [m0|]; [|discriminate].
  destruct (split "/" (strip t) !! 1%nat) as [s1|]; [|discriminate].
  destruct (py_int s1) as [dd|]; [|discriminate].
  destruct (c_int y0 && c_int m0 && c_int dd); [|discriminate].
  destruct (valid_date y0 m0 dd) eqn:Ev; [|discriminate].
  injection H as -> ->. unfold valid_date in Ev.
  repeat (apply andb_true_iff in Ev as [Ev ?]). lia.
Qed.

Lemma links_of_key_row (k : Z * Z) (divs : list div) :
  links_of_key k divs <> [] -> exists d, In d divs /\ row_key d = Ok k.
Proof.
  induction divs as [|d divs IH]; cbn [links_of_key]; [congruence|].
  intros H. destruct (row_key d) as [k'|e] eqn:Ek.
  - destruct (decide (k' = k)) as [->|Hne].
    + exists d. split; [left; reflexivity | exact Ek].
    + destruct (IH H) as (d' & Hin & Hd'). exists d'. split; [right|]; assumption.
  - destruct (IH H) as (d' & Hin & Hd'). exists d'. split; [right|]; assumption.
Qed.


